(** * httpd2: a shallow embedding of the request pipeline of src/main.rs

    Characters are Unicode scalar values, modelled as their code points
    ([nat]); a Rust [String] is a [list char]. *)

From Stdlib Require Import List Arith Lia Bool String Ascii NArith ZArith.
Import ListNotations.

Definition char := nat.
Definition rstring := list char.

(** Literal helper: the code points of an ASCII string literal. *)
Definition str (s : string) : rstring :=
  map nat_of_ascii (list_ascii_of_string s).

Definition c_nul : char := 0.
Definition c_pct : char := 37.   (* '%' *)
Definition c_dot : char := 46.   (* '.' *)
Definition c_slash : char := 47. (* '/' *)
Definition c_colon : char := 58. (* ':' *)
Definition c_under : char := 95. (* '_' *)

(** ** Generic iterator driver: [Iterator::collect] over a [next] function.
    The fuel bounds the number of calls to [next]. *)
Fixpoint collect {S : Type} (next : S -> option (char * S)) (fuel : nat) (s : S)
  : rstring :=
  match fuel with
  | O => []
  | S fuel' =>
      match next s with
      | None => []
      | Some (c, s') => c :: collect next fuel' s'
      end
  end.

(** The state after [k] calls of [next], if none of them returned [None]. *)
Fixpoint advance {S : Type} (next : S -> option (char * S)) (k : nat) (s : S)
  : option S :=
  match k with
  | O => Some s
  | S k' =>
      match next s with
      | None => None
      | Some (_, s') => advance next k' s'
      end
  end.

(** ** [size_hint] of [std::str::Chars]: [((len + 3) / 4, Some(len))], where
    [len] is the number of UTF-8 bytes left. *)
Definition utf8_len (c : char) : nat :=
  if c <? 128 then 1 else if c <? 2048 then 2 else if c <? 65536 then 3 else 4.

Definition utf8_bytes (l : rstring) : nat := fold_right (fun c n => utf8_len c + n) 0 l.

Definition chars_size_hint (l : rstring) : nat * option nat :=
  let len := utf8_bytes l in ((len + 3) / 4, Some len).

(** ** PercentDecoder *)
Module Percent.

Inductive PercentState :=
| Normal
| Unspool2 (x y : char)
| Unspool (y : char).

(** [fn hexit(c: char) -> Option<u8>] *)
Definition hexit (c : char) : option nat :=
  if (48 <=? c) && (c <=? 57) then Some (c - 48)
  else if (65 <=? c) && (c <=? 70) then Some (c - 65 + 10)
  else if (97 <=? c) && (c <=? 102) then Some (c - 97 + 10)
  else None.

(** [(x << 4 | y) as char] on [u8] operands. *)
Definition combine (x y : nat) : char :=
  Nat.lor ((Nat.shiftl x 4) mod 256) y.

(** [PercentDecoder::next]; the inner [Chars] iterator is the remaining
    input list. *)
Definition next (st : PercentState * rstring)
  : option (char * (PercentState * rstring)) :=
  let '(state, inner) := st in
  match state with
  | Normal =>
      match inner with
      | [] => None
      | c :: inner1 =>
          if c =? c_pct then
            match inner1 with
            | [] => Some (c_pct, (Normal, []))
            | x :: inner2 =>
                match inner2 with
                | [] => Some (c_pct, (Unspool x, []))
                | y :: inner3 =>
                    match hexit x, hexit y with
                    | Some x', Some y' => Some (combine x' y', (Normal, inner3))
                    | _, _ => Some (c_pct, (Unspool2 x y, inner3))
                    end
                end
            end
          else Some (c, (Normal, inner1))
      end
  | Unspool2 x y => Some (x, (Unspool y, inner))
  | Unspool y => Some (y, (Normal, inner))
  end.

(** [PercentDecoder::size_hint]: [(min / 3, max)] of the inner hint; the
    state is not consulted. *)
Definition size_hint (st : PercentState * rstring) : nat * option nat :=
  let '(min, max) := chars_size_hint (snd st) in (min / 3, max).

End Percent.

(** ** Sanitizer *)
Module Sanitizer.

Inductive SanitizerState := EmitDot | EmitSlash | Normal | Slash.

(** One iteration of the [loop] in [Sanitizer::next]: the new state and
    [Some] output for [break], [None] for [continue]. *)
Definition step (state : SanitizerState) (c : char)
  : SanitizerState * option char :=
  if c =? c_nul then (Normal, Some c_under)
  else match state with
  | Normal => if c =? c_slash then (Slash, Some c_slash) else (Normal, Some c)
  | Slash =>
      if c =? c_slash then (Slash, None)
      else if c =? c_dot then (Normal, Some c_colon)
      else (Normal, Some c)
  | _ => (Normal, Some c)
  end.

(** The [loop]: pull from [inner] until a character is emitted. The inner
    iterator is given by its [next] function. *)
Section Loop.
Context {I : Type} (inner_next : I -> option (char * I)).

Fixpoint loop (fuel : nat) (state : SanitizerState) (inner : I)
  : option (char * (SanitizerState * I)) :=
  match fuel with
  | O => None
  | S fuel' =>
      match inner_next inner with
      | None => None
      | Some (c, inner') =>
          match step state c with
          | (state', Some o) => Some (o, (state', inner'))
          | (state', None) => loop fuel' state' inner'
          end
      end
  end.

(** [Sanitizer::next] *)
Definition next (fuel : nat) (st : SanitizerState * I)
  : option (char * (SanitizerState * I)) :=
  let '(state, inner) := st in
  match state with
  | EmitDot => Some (c_dot, (EmitSlash, inner))
  | EmitSlash => Some (c_slash, (Slash, inner))
  | _ => loop fuel state inner
  end.
End Loop.

(** [Sanitizer::size_hint]: [(0, self.inner.size_hint().1.map(|x| x + 2))]. *)
Definition size_hint {I : Type} (inner_size_hint : I -> nat * option nat)
  (st : SanitizerState * I) : nat * option nat :=
  (0, option_map (fun x => x + 2) (snd (inner_size_hint (snd st)))).

End Sanitizer.

(** [fn sanitize_path(path: &str) -> String]:
    [Sanitizer::from(PercentDecoder::from(path.chars())).collect()].
    Every call of the decoder's [next] consumes input or empties an unspool
    state, so [3 * length + 3] calls bound every loop. *)
Definition sanitize_path (path : rstring) : rstring :=
  let fuel := 3 * List.length path + 3 in
  collect (Sanitizer.next Percent.next fuel) fuel
    (Sanitizer.EmitDot, (Percent.Normal, path)).

(** [PercentDecoder::from(path.chars()).collect::<String>()] *)
Definition percent_decode (path : rstring) : rstring :=
  collect Percent.next (List.length path + 1) (Percent.Normal, path).

(** Percent-encoding of a byte with upper-case hex digits: the encoder side
    that the decoder undoes (not part of the server). *)
Definition hex_digit (d : nat) : char := if d <? 10 then 48 + d else 55 + d.

Definition pct_encode (b : nat) : rstring := [c_pct; hex_digit (b / 16); hex_digit (b mod 16)].

(** ** Structural forms of the two transducers *)
Module Structural.

(** The decoder as a function of the whole input. *)
Fixpoint decode (l : rstring) : rstring :=
  match l with
  | [] => []
  | c :: l1 =>
      if c =? c_pct then
        match l1 with
        | [] => [c_pct]
        | [x] => [c_pct; x]
        | x :: y :: l3 =>
            match Percent.hexit x, Percent.hexit y with
            | Some x', Some y' => Percent.combine x' y' :: decode l3
            | _, _ => c_pct :: x :: y :: decode l3
            end
        end
      else c :: decode l1
  end.

(** Characters still to be yielded from an unspool state. *)
Definition pending (st : Percent.PercentState) : rstring :=
  match st with
  | Percent.Normal => []
  | Percent.Unspool2 x y => [x; y]
  | Percent.Unspool y => [y]
  end.

Definition measure (s : Percent.PercentState * rstring) : nat :=
  List.length (pending (fst s)) + List.length (snd s).

(** What a decoder state still yields. *)
Definition yields (s : Percent.PercentState * rstring) : rstring :=
  pending (fst s) ++ decode (snd s).

(** The sanitizer loop body folded over a list of characters. *)
Fixpoint san (state : Sanitizer.SanitizerState) (l : rstring) : rstring :=
  match l with
  | [] => []
  | c :: l' =>
      match Sanitizer.step state c with
      | (state', Some o) => o :: san state' l'
      | (state', None) => san state' l'
      end
  end.

End Structural.

(** Splitting on a separator, as [str::split]: [""] gives one empty piece. *)
Fixpoint split_on (sep : char) (l : rstring) : list rstring :=
  match l with
  | [] => [[]]
  | c :: l' =>
      let pieces := split_on sep l' in
      if c =? sep then [] :: pieces
      else match pieces with
           | p :: ps => (c :: p) :: ps
           | [] => [[c]]
           end
  end.

Definition segments (path : rstring) : list rstring := split_on c_slash path.

(** Two consecutive ['/'] somewhere in the string. *)
Fixpoint adjacent_slashes (l : rstring) : bool :=
  match l with
  | a :: ((b :: _) as t) => ((a =? c_slash) && (b =? c_slash)) || adjacent_slashes t
  | _ => false
  end.

(** A segment that does not start with ['.']. *)
Definition seg_ok (seg : rstring) : Prop := hd_error seg <> Some c_dot.

(** A path inside the served tree: it starts with ["./"] and no segment
    after that is ["."] or [".."]. *)
Definition safe_path (p : rstring) : Prop :=
  firstn 2 p = [c_dot; c_slash] /\
  Forall (fun seg => seg <> [c_dot] /\ seg <> [c_dot; c_dot]) (tl (segments p)).

Definition rstring_eqb (a b : rstring) : bool :=
  if list_eq_dec Nat.eq_dec a b then true else false.

(** ** [map_content_type] and the parts of [std::path::Path] it uses *)
Module PathExt.

(** [Path::file_name]: the last component if it is a normal one. Empty
    components and ["."] components are not normal components. *)
Definition file_name (path : rstring) : option rstring :=
  let comps := filter (fun seg => negb (rstring_eqb seg [] || rstring_eqb seg [c_dot]))
                 (segments path) in
  match last (map Some comps) None with
  | Some name => if rstring_eqb name [c_dot; c_dot] then None else Some name
  | None => None
  end.

(** Split at the first occurrence of [d]. *)
Fixpoint split_at_first (d : char) (l : rstring) : option (rstring * rstring) :=
  match l with
  | [] => None
  | c :: l' =>
      if c =? d then Some ([], l')
      else match split_at_first d l' with
           | Some (a, b) => Some (c :: a, b)
           | None => None
           end
  end.

(** [Path::extension]: the part after the last ['.'] of the file name,
    unless that dot is its first character. *)
Definition extension (path : rstring) : option rstring :=
  match file_name path with
  | None => None
  | Some name =>
      match split_at_first c_dot (rev name) with
      | None => None
      | Some (after_rev, before_rev) =>
          match before_rev with
          | [] => None
          | _ => Some (rev after_rev)
          end
      end
  end.

End PathExt.

(** [fn map_content_type(path: &Path) -> &'static str] *)
Definition map_content_type (path : rstring) : string :=
  match PathExt.extension path with
  | Some e =>
      if rstring_eqb e (str "html") then "text/html"
      else if rstring_eqb e (str "css") then "text/css"
      else if rstring_eqb e (str "js") then "text/javascript"
      else if rstring_eqb e (str "woff2") then "font/woff2"
      else if rstring_eqb e (str "png") then "image/png"
      else "text/plain"
  | None => "text/plain"
  end.

(** ** The filesystem as seen through [tokio::fs] *)
Module Fs.

Inductive FileType := RegularFile | Directory | OtherType.

(** [std::fs::Metadata]: [permissions().mode()], the file type, [len()] and
    [modified()]; [modified] is [None] where [Metadata::modified] returns
    [Err]. A [SystemTime] is an integer count of nanoseconds relative to
    [UNIX_EPOCH]. *)
Record Metadata := {
  mode : N;
  file_type : FileType;
  len : N;
  modified : option Z
}.

Inductive ErrorKind := NotFound | PermissionDenied | OtherKind.

Record IoError := { kind : ErrorKind; msg : string }.

Definition Handle := nat.

(** [File::open] on a path, and [File::metadata] on an opened handle
    (an fstat, so it sees the object the handle refers to). *)
Record Fs := {
  open : rstring -> Handle + IoError;
  metadata : Handle -> Metadata + IoError
}.

End Fs.

(** Computations that return normally or panic. *)
Inductive Run (A : Type) := Returns (a : A) | Panics (msg : string).
Arguments Returns {A} a.
Arguments Panics {A} msg.

Definition unwrap_msg : string := "called `Result::unwrap()` on an `Err` value".

(** [enum FileOrDir] *)
Inductive FileOrDir :=
| File (file : Fs.Handle) (content_type : string) (len : N) (modified : Z)
| Dir.

Definition not_found (m : string) : Fs.IoError :=
  {| Fs.kind := Fs.NotFound; Fs.msg := m |}.

(** [async fn picky_open(log, path) -> Result<FileOrDir, io::Error>] *)
Definition picky_open (fs : Fs.Fs) (path : rstring) : Run (FileOrDir + Fs.IoError) :=
  match Fs.open fs path with
  | inr e => Returns (inr e)
  | inl file =>
      match Fs.metadata fs file with
      | inr e => Returns (inr e)
      | inl meta =>
          let mode := Fs.mode meta in
          (* mode & 0o444 != 0o444 || mode & 0o101 == 0o001 *)
          if negb (N.land mode 292 =? 292)%N || (N.land mode 65 =? 1)%N then
            Returns (inr (not_found "perms"))
          else match Fs.file_type meta with
          | Fs.RegularFile =>
              match Fs.modified meta with
              | Some m => Returns (inl (File file (map_content_type path) (Fs.len meta) m))
              | None => Panics unwrap_msg
              end
          | Fs.Directory => Returns (inl Dir)
          | Fs.OtherType => Returns (inr (not_found "type"))
          end
      end
  end.

(** [picky_open_with_redirect(log, path: &mut String)]: the outcome and the
    final value of [path]. *)
Definition picky_open_with_redirect (fs : Fs.Fs) (path : rstring)
  : Run (FileOrDir + Fs.IoError) * rstring :=
  match picky_open fs path with
  | Returns (inl Dir) =>
      let path' := path ++ str "/index.html" in
      (picky_open fs path', path')
  | r => (r, path)
  end.

(** [picky_open_with_redirect_and_gzip(log, path: &mut String)] *)
Definition picky_open_with_redirect_and_gzip (fs : Fs.Fs) (path : rstring)
  : Run ((FileOrDir * option string) + Fs.IoError) * rstring :=
  match picky_open_with_redirect fs path with
  | (Panics m, path1) => (Panics m, path1)
  | (Returns (inr e), path1) => (Returns (inr e), path1)
  | (Returns (inl Dir), path1) => (Returns (inl (Dir, None)), path1)
  | (Returns (inl (File file content_type len modified)), path1) =>
      let path2 := path1 ++ str ".gz" in
      match picky_open fs path2 with
      | Panics m => (Panics m, path2)
      | Returns (inl (File file' _ len' cmod)) =>
          if (modified <=? cmod)%Z
          then (Returns (inl (File file' content_type len' modified, Some "gzip"%string)), path2)
          else (Returns (inl (File file content_type len modified, None)), path2)
      | Returns _ =>
          (Returns (inl (File file content_type len modified, None)), path2)
      end
  end.

(** ** Requests and responses, as far as [serve_files] uses them *)
Module Http.

Inductive Method :=
| GET | HEAD | POST | PUT | DELETE | OPTIONS | CONNECT | PATCH | TRACE
| Extension (name : rstring).

(** [req.method()], [req.uri().path()] and the raw bytes of every
    [Accept-Encoding] header value, in order. *)
Record Request := {
  method : Method;
  uri_path : rstring;
  accept_encoding : list (list nat)
}.

(** Header values as the handler builds them: from a number ([len.into()]),
    from a static string, or the IMF-fixdate text of a whole number of
    seconds since the epoch ([httpdate::fmt_http_date]). *)
Inductive HeaderValue :=
| HVNum (n : N)
| HVStatic (s : string)
| HVHttpDate (secs : Z).

Inductive Body := Empty | FileStream (file : Fs.Handle).

Record Response := {
  status : N;
  headers : list (string * HeaderValue);
  body : Body
}.

(** [Response::new(Body::empty())]: status 200, no headers. *)
Definition new_response : Response :=
  {| status := 200; headers := []; body := Empty |}.

Definition set_status (r : Response) (s : N) : Response :=
  {| status := s; headers := headers r; body := body r |}.

Definition insert_header (r : Response) (name : string) (v : HeaderValue) : Response :=
  {| status := status r; headers := headers r ++ [(name, v)]; body := body r |}.

Definition set_body (r : Response) (b : Body) : Response :=
  {| status := status r; headers := headers r; body := b |}.

(** [HeaderValue::to_str]: only visible ASCII and tab. *)
Definition is_visible_ascii (b : nat) : bool :=
  ((32 <=? b) && (b <? 127)) || (b =? 9).

Definition to_str (v : list nat) : option rstring :=
  if forallb is_visible_ascii v then Some v else None.

(** [char::is_whitespace] on the characters [to_str] lets through. *)
Definition is_whitespace (c : char) : bool :=
  existsb (Nat.eqb c) [9; 10; 11; 12; 13; 32].

Fixpoint trim_start (l : rstring) : rstring :=
  match l with
  | c :: l' => if is_whitespace c then trim_start l' else l
  | [] => []
  end.

Definition trim (l : rstring) : rstring :=
  rev (trim_start (rev (trim_start l))).

(** The header scan that sets [accept_gzip]. *)
Definition accept_gzip (req : Request) : bool :=
  existsb (fun v =>
             match to_str v with
             | Some list => existsb (fun item => rstring_eqb (trim item) (str "gzip"))
                              (split_on 44 list)
             | None => false
             end)
          (accept_encoding req).

(** The bare 404 of [serve_files]. *)
Definition not_found_response : Response :=
  {| status := 404; headers := []; body := Empty |}.

End Http.

(** [httpdate::fmt_http_date] on a time in nanoseconds since the epoch:
    panics before the epoch and from 253402300800 s (10000-01-01) on; the
    text is determined by the whole seconds. *)
Definition fmt_http_date (t : Z) : Run Z :=
  if (t <? 0)%Z then Panics "all times should be after the epoch"
  else let secs := (t / 1000000000)%Z in
       if (253402300800 <=? secs)%Z then Panics "date must be before year 9999"
       else Returns secs.

Definition CONTENT_LENGTH : string := "content-length".
Definition CONTENT_TYPE : string := "content-type".
Definition LAST_MODIFIED : string := "last-modified".
Definition CONTENT_ENCODING : string := "content-encoding".

(** The [open_result] of [serve_files]: the gzip-aware selector, or the
    directory redirect alone with no encoding. *)
Definition select_content_encoding (fs : Fs.Fs) (accept_gzip : bool) (sanitized : rstring)
  : Run ((FileOrDir * option string) + Fs.IoError) :=
  if accept_gzip then fst (picky_open_with_redirect_and_gzip fs sanitized)
  else match fst (picky_open_with_redirect fs sanitized) with
       | Returns (inl f) => Returns (inl (f, None))
       | Returns (inr e) => Returns (inr e)
       | Panics m => Panics m
       end.

(** [async fn serve_files(log, req) -> Result<Response<Body>, ServeError>];
    it never returns [Err], so only the response (or a panic) is kept. *)
Definition serve_files (fs : Fs.Fs) (req : Http.Request) : Run Http.Response :=
  let response := Http.new_response in
  let accept_gzip := Http.accept_gzip req in
  match Http.method req with
  | (Http.GET | Http.HEAD) as method =>
      let sanitized := sanitize_path (Http.uri_path req) in
      let open_result := select_content_encoding fs accept_gzip sanitized in
      match open_result with
      | Panics m => Panics m
      | Returns (inl (File file content_type len modified, enc)) =>
          let response := Http.insert_header response CONTENT_LENGTH (Http.HVNum len) in
          let response := Http.insert_header response CONTENT_TYPE
                            (Http.HVStatic content_type) in
          match fmt_http_date modified with
          | Panics m => Panics m
          | Returns date =>
              let response := Http.insert_header response LAST_MODIFIED
                                (Http.HVHttpDate date) in
              let response := match enc with
                              | Some enc => Http.insert_header response CONTENT_ENCODING
                                              (Http.HVStatic enc)
                              | None => response
                              end in
              let response := match method with
                              | Http.GET => Http.set_body response (Http.FileStream file)
                              | _ => response
                              end in
              Returns response
          end
      | Returns (inl _) => Returns (Http.set_status response 404)
      | Returns (inr _) => Returns (Http.set_status response 404)
      end
  | _ => Returns (Http.set_status response 404)
  end.

(** ** Command line ([get_args]) *)
Module Cli.

(** The part of [clap::ArgMatches] that [get_args] reads: the names of the
    arguments that occurred, and the values of those that take one. A flag
    (an argument without [takes_value]) occurs but has no value. *)
Record Matches := {
  present : list string;
  values : list (string * rstring)
}.

(** [matches.value_of(name)] *)
Definition value_of (m : Matches) (name : string) : option rstring :=
  match find (fun kv => String.eqb (fst kv) name) (values m) with
  | Some (_, v) => Some v
  | None => None
  end.

(** The options declared in [get_args]: name, short and long spelling,
    whether it takes a value. *)
Definition options : list (string * rstring * rstring * bool) :=
  [ ("chroot", str "-c", str "--chroot", false);
    ("addr", str "-A", str "--addr", true);
    ("uid", str "-U", str "--uid", true);
    ("gid", str "-G", str "--gid", true);
    ("key_path", str "-k", str "--key-path", true);
    ("cert_path", str "-r", str "--cert-path", true) ]%string.

Definition lookup_option (tok : rstring) : option (string * bool) :=
  match find (fun '(_, s, l, _) => rstring_eqb tok s || rstring_eqb tok l) options with
  | Some (name, _, _, tv) => Some (name, tv)
  | None => None
  end.

(** [str::parse::<u32>]: an optional ['+'] and at least one decimal digit,
    below [2^32]. *)
Fixpoint digits_value (acc : N) (l : rstring) : option N :=
  match l with
  | [] => Some acc
  | c :: l' =>
      if (48 <=? c) && (c <=? 57)
      then digits_value (acc * 10 + N.of_nat (c - 48))%N l'
      else None
  end.

Definition parse_u32 (l : rstring) : option N :=
  let l := match l with 43 :: l' => l' | _ => l end in
  match l with
  | [] => None
  | _ => match digits_value 0%N l with
         | Some n => if (n <? 4294967296)%N then Some n else None
         | None => None
         end
  end.

(** [App::get_matches] on the separated argument forms ([-c], [--uid 33],
    positional [DIR]); [None] is a usage error. The validators [is_uid] and
    [is_gid] run on the values; [is_sockaddr] is not modelled and an address
    is kept as its text. *)
Fixpoint scan (args : list rstring) (m : Matches) : option Matches :=
  match args with
  | [] => Some m
  | tok :: rest =>
      match lookup_option tok with
      | Some (name, false) =>
          scan rest {| present := present m ++ [name]; values := values m |}
      | Some (name, true) =>
          match rest with
          | v :: rest' =>
              let valid := if String.eqb name "uid" || String.eqb name "gid"
                           then match parse_u32 v with Some _ => true | None => false end
                           else true in
              if valid then
                scan rest' {| present := present m ++ [name];
                              values := (name, v) :: values m |}
              else None
          | [] => None
          end
      | None =>
          match tok with
          | 45 :: _ => None
          | _ =>
              match value_of m "DIR" with
              | Some _ => None
              | None => scan rest {| present := present m ++ ["DIR"%string];
                                     values := values m ++ [("DIR"%string, tok)] |}
              end
          end
      end
  end.

(** Defaults of [key_path] and [cert_path]; [DIR] is required. *)
Definition get_matches (args : list rstring) : option Matches :=
  match scan args {| present := []; values := [] |} with
  | Some m =>
      match value_of m "DIR" with
      | None => None
      | Some _ =>
          Some {| present := present m;
                  values := values m ++ [("key_path"%string, str "localhost.key");
                                         ("cert_path"%string, str "localhost.crt")] |}
      end
  | None => None
  end.

(** [<bool as FromStr>::from_str] *)
Definition parse_bool (v : rstring) : option bool :=
  if rstring_eqb v (str "true") then Some true
  else if rstring_eqb v (str "false") then Some false
  else None.

(** [value_t!(matches, name, bool)]: [Err] unless [value_of] has a value that
    parses. *)
Definition value_t_bool (m : Matches) (name : string) : bool + string :=
  match value_of m name with
  | Some v => match parse_bool v with
              | Some b => inl b
              | None => inr "isn't a valid value"%string
              end
  | None => inr "argument not found"%string
  end.

Record Args := {
  root : rstring;
  key_path : rstring;
  cert_path : rstring;
  should_chroot : bool;
  addr : rstring;
  uid : option N;
  gid : option N
}.

Definition default_addr : rstring := str "[::]:8000".

Definition unwrap_or {A E : Type} (r : A + E) (d : A) : A :=
  match r with inl a => a | inr _ => d end.

Definition opt_default {A : Type} (o : option A) (d : A) : A :=
  match o with Some a => a | None => d end.

(** [fn get_args() -> Result<Args, clap::Error>]; [None] when clap exits
    with a usage error. *)
Definition get_args (argv : list rstring) : option Args :=
  match get_matches argv with
  | None => None
  | Some matches =>
      Some {| root := opt_default (value_of matches "DIR") [];
              key_path := opt_default (value_of matches "key_path") [];
              cert_path := opt_default (value_of matches "cert_path") [];
              should_chroot := unwrap_or (value_t_bool matches "chroot") false;
              addr := opt_default (value_of matches "addr") default_addr;
              uid := match value_of matches "uid" with
                     | Some u => parse_u32 u | None => None end;
              gid := match value_of matches "gid" with
                     | Some g => parse_u32 g | None => None end |}
  end.

End Cli.

(** ** Startup: [drop_privs] and [start] *)
Module Startup.

(** The process-wide operations of startup, in the order they are issued. *)
Inductive Event :=
| LoadKeyAndCert (key cert : rstring)
| Bind (addr : rstring)
| Chdir (dir : rstring)
| Chroot (dir : rstring)
| Setgid (g : N)
| Setgroups (gs : list N)
| Setuid (u : N)
| SetSingleCert
| EnterAcceptLoop.

Inductive ServeError := Hyper | Io | Nix | Tls.

Inductive Stop :=
| Fatal (e : ServeError)   (* [start] returns [Err]; [main] panics *)
| UsageExit.               (* [clap::Error::exit] *)

(** Whether each operation succeeds. *)
Definition Env := Event -> bool.

(** A state and error monad: the trace of issued operations is the state. *)
Definition M (A : Type) := list Event -> (A + Stop) * list Event.

Definition ret {A} (a : A) : M A := fun tr => (inl a, tr).

Definition bind {A B} (m : M A) (k : A -> M B) : M B :=
  fun tr => match m tr with
            | (inl a, tr') => k a tr'
            | (inr s, tr') => (inr s, tr')
            end.

Notation "'let?' x ':=' c 'in' k" := (bind c (fun x => k))
  (at level 200, x name, c at level 100, k at level 200).

Definition error_of (e : Event) : ServeError :=
  match e with
  | LoadKeyAndCert _ _ | Bind _ | Chdir _ => Io
  | Chroot _ | Setgid _ | Setgroups _ | Setuid _ => Nix
  | SetSingleCert => Tls
  | EnterAcceptLoop => Io
  end.

(** Issue an operation; [?] on its result. *)
Definition perform (env : Env) (e : Event) : M unit :=
  fun tr => (if env e then inl tt else inr (Fatal (error_of e)), tr ++ [e]).

(** [fn drop_privs(args: &Args) -> Result<(), ServeError>] *)
Definition drop_privs (env : Env) (args : Cli.Args) : M unit :=
  let? _ := perform env (Chdir (Cli.root args)) in
  let? _ := if Cli.should_chroot args then perform env (Chroot (Cli.root args))
            else ret tt in
  let? _ := match Cli.gid args with
            | Some gid =>
                let? _ := perform env (Setgid gid) in
                perform env (Setgroups [gid])
            | None => ret tt
            end in
  match Cli.uid args with
  | Some uid => perform env (Setuid uid)
  | None => ret tt
  end.

(** [async fn start(log) -> Result<(), ServeError>] up to entering the
    accept loop, which does not return. *)
Definition start (env : Env) (argv : list rstring) : M unit :=
  let? args := (fun tr => match Cli.get_args argv with
                          | Some a => (inl a, tr)
                          | None => (inr UsageExit, tr)
                          end) in
  let? _ := perform env (LoadKeyAndCert (Cli.key_path args) (Cli.cert_path args)) in
  let? _ := perform env (Bind (Cli.addr args)) in
  let? _ := drop_privs env args in
  let? _ := perform env SetSingleCert in
  fun tr => (inl tt, tr ++ [EnterAcceptLoop]).

(** The operations [start] issues before [drop_privs]. *)
Definition opening (args : Cli.Args) : list Event :=
  [LoadKeyAndCert (Cli.key_path args) (Cli.cert_path args); Bind (Cli.addr args)].

(** Issuing a list of operations in order, stopping at the first failure. *)
Fixpoint perform_all (env : Env) (es : list Event) : M unit :=
  match es with
  | [] => ret tt
  | e :: es' => bind (perform env e) (fun _ => perform_all env es')
  end.

(** The privilege-drop order as the spec words it (section 4.5.1). *)
Definition drop_sequence (args : Cli.Args) : list Event :=
  [Chdir (Cli.root args)]
  ++ (if Cli.should_chroot args then [Chroot (Cli.root args)] else [])
  ++ match Cli.gid args with Some g => [Setgid g; Setgroups [g]] | None => [] end
  ++ match Cli.uid args with Some u => [Setuid u] | None => [] end.

End Startup.

(** ** [load_key_and_cert] *)
Module KeyLoad.

Definition other (m : string) : Fs.IoError := {| Fs.kind := Fs.OtherKind; Fs.msg := m |}.

(** [Vec::pop]: the last element and the rest. *)
Definition pop {A : Type} (l : list A) : option (A * list A) :=
  match rev l with
  | [] => None
  | x :: r => Some (x, rev r)
  end.

Section Load.
(** The PEM readers of [rustls::internal::pemfile] on a reader over an opened
    file; [None] is their [Err(())]. *)
Context {PrivateKey Certificate : Type}.
Variable pkcs8_private_keys : Fs.Handle -> option (list PrivateKey).
Variable certs : Fs.Handle -> option (list Certificate).

(** [fn load_key_and_cert(key_path, cert_path)
    -> io::Result<(rustls::PrivateKey, Vec<rustls::Certificate>)>], with the
    paths it opens, in order. *)
Definition load_key_and_cert (fs : Fs.Fs) (key_path cert_path : rstring)
  : ((PrivateKey * list Certificate) + Fs.IoError) * list rstring :=
  match Fs.open fs key_path with
  | inr e => (inr e, [key_path])
  | inl key_file =>
      match pkcs8_private_keys key_file with
      | None => (inr (other "can't load private key (bad file?)"), [key_path])
      | Some keys =>
          match pop keys with
          | None => (inr (other "no keys found in private key file"), [key_path])
          | Some (key, _) =>
              match Fs.open fs cert_path with
              | inr e => (inr e, [key_path; cert_path])
              | inl cert_file =>
                  match certs cert_file with
                  | None => (inr (other "can't load certificate"), [key_path; cert_path])
                  | Some cert_chain => (inl (key, cert_chain), [key_path; cert_path])
                  end
              end
          end
      end
  end.

End Load.
End KeyLoad.

(** ** The accept loop of [start] *)
Module Accept.

(** An accepted socket, through [peer_addr()]: [None] where it returns
    [Err], otherwise the text of the address. *)
Record Socket := { peer_addr : option rstring }.

(** What one turn of the loop does: spawn the connection task, whose logger
    carries [peer] and [cid], or log ["error accepting"]. *)
Inductive LoopEvent :=
| Spawn (peer : rstring) (cid : N)
| WarnAccept.

(** [connection_counter.fetch_add(1, Ordering::Relaxed)] on an [AtomicU64]:
    the old value, and the new one, which wraps at [2^64]. *)
Definition fetch_add (counter : N) : N * N := (counter, ((counter + 1) mod 2 ^ 64)%N).

(** [while let Some(stream) = incoming.next().await { ... }] over a finite
    stream of accept results; [start] returns [Ok(())] when it ends. *)
Fixpoint accept_loop (incoming : list (Socket + Fs.IoError)) (connection_counter : N)
  : list LoopEvent * N :=
  match incoming with
  | [] => ([], connection_counter)
  | inl socket :: rest =>
      let peer := match peer_addr socket with Some a => a | None => str "UNKNOWN" end in
      let '(cid, counter') := fetch_add connection_counter in
      let '(evs, c) := accept_loop rest counter' in
      (Spawn peer cid :: evs, c)
  | inr _ :: rest =>
      let '(evs, c) := accept_loop rest connection_counter in
      (WarnAccept :: evs, c)
  end.

(** The [cid]s of the spawned connections, in order. *)
Definition cids (evs : list LoopEvent) : list N :=
  flat_map (fun e => match e with Spawn _ cid => [cid] | WarnAccept => [] end) evs.

End Accept.

(** ** Sample filesystems *)
Module Fixtures.

Definition meta (mode : N) (ft : Fs.FileType) (len : N) (mtime : option Z) : Fs.Metadata :=
  {| Fs.mode := mode; Fs.file_type := ft; Fs.len := len; Fs.modified := mtime |}.

Definition enoent : Fs.IoError :=
  {| Fs.kind := Fs.NotFound; Fs.msg := "No such file or directory" |}.

(** A table from paths to handles and from handles to metadata. *)
Definition table_fs (paths : list (rstring * Fs.Handle)) (metas : list (Fs.Handle * Fs.Metadata))
  : Fs.Fs :=
  {| Fs.open := fun p => match find (fun e => rstring_eqb (fst e) p) paths with
                         | Some (_, h) => inl h
                         | None => inr enoent
                         end;
     Fs.metadata := fun h => match find (fun e => Nat.eqb (fst e) h) metas with
                             | Some (_, m) => inl m
                             | None => inr enoent
                             end |}.

(** Root directory with an [index.html] (mode 0644, 11 bytes) and an
    [index.html.gz] (7 bytes, one second newer); a directory [sub] whose
    [index.html] is itself a directory; [secret.txt] with mode 0640; and
    [nomtime.txt] (0644) whose metadata has no modification time. *)
Definition site : Fs.Fs :=
  table_fs
    [ (str "./", 1); (str ".//index.html", 2); (str ".//index.html.gz", 3);
      (str "./sub", 4); (str "./sub/index.html", 5);
      (str "./secret.txt", 6); (str "./nomtime.txt", 7) ]
    [ (1, meta 493 Fs.Directory 4096 (Some 0%Z));
      (2, meta 420 Fs.RegularFile 11 (Some 1000000000000%Z));
      (3, meta 420 Fs.RegularFile 7 (Some 1001000000000%Z));
      (4, meta 493 Fs.Directory 4096 (Some 0%Z));
      (5, meta 493 Fs.Directory 4096 (Some 0%Z));
      (6, meta 416 Fs.RegularFile 5 (Some 0%Z));
      (7, meta 420 Fs.RegularFile 5 None) ].

(** [site], where a path outside the served tree also opens (to the
    handle of [index.html]). *)
Definition site_outside : Fs.Fs :=
  {| Fs.open := fun p => if rstring_eqb p (str "../etc/passwd") then inl 2
                         else Fs.open site p;
     Fs.metadata := Fs.metadata site |}.

Definition get (path : rstring) (gz : bool) : Http.Request :=
  {| Http.method := Http.GET; Http.uri_path := path;
     Http.accept_encoding := if gz then [str "deflate, gzip"] else [] |}.

End Fixtures.

(** * Properties *)

(** ** Concrete runs *)
Example sanitize_t1 : sanitize_path (str "//.././doc.pdf" ++ [0] ++ str "/")
                      = str "./:./:/doc.pdf_/".
Proof. vm_compute. reflexivity. Qed.
Example sanitize_t2 : sanitize_path (str "%2f%2e%2e%00") = str "./:._".
Proof. vm_compute. reflexivity. Qed.
Example sanitize_t3 : sanitize_path (str "%4g") = str "./%4g".
Proof. vm_compute. reflexivity. Qed.
Example content_type_t1 : map_content_type (str "./index.html.gz") = "text/plain"%string.
Proof. vm_compute. reflexivity. Qed.
Example content_type_t2 : map_content_type (str "./:/index.html") = "text/html"%string.
Proof. vm_compute. reflexivity. Qed.
Example content_type_t3 : map_content_type (str "./:css") = "text/plain"%string.
Proof. vm_compute. reflexivity. Qed.

(** ** The decoder and the sanitizer as list functions *)
Module Normalizer.
Import Structural.

Lemma hexit_lt (c v : char) : Percent.hexit c = Some v -> v < 16.
Proof.
  unfold Percent.hexit; intros H.
  destruct ((48 <=? c) && (c <=? 57)) eqn:E1;
    [apply andb_true_iff in E1 as [_ Hle]; apply Nat.leb_le in Hle;
     injection H as <-; lia|].
  destruct ((65 <=? c) && (c <=? 70)) eqn:E2;
    [apply andb_true_iff in E2 as [_ Hle]; apply Nat.leb_le in Hle;
     injection H as <-; lia|].
  destruct ((97 <=? c) && (c <=? 102)) eqn:E3; [|discriminate].
  apply andb_true_iff in E3 as [_ Hle]; apply Nat.leb_le in Hle; injection H as <-; lia.
Qed.

Lemma combine_table :
  forallb (fun x => forallb (fun y => Percent.combine x y =? x * 16 + y) (seq 0 16))
          (seq 0 16) = true.
Proof. vm_compute. reflexivity. Qed.

Lemma combine_spec (x y : nat) : x < 16 -> y < 16 -> Percent.combine x y = x * 16 + y.
Proof.
  intros Hx Hy.
  pose proof combine_table as T.
  rewrite forallb_forall in T.
  specialize (T x (proj2 (in_seq 16 0 x) (conj (Nat.le_0_l _) Hx))).
  rewrite forallb_forall in T.
  specialize (T y (proj2 (in_seq 16 0 y) (conj (Nat.le_0_l _) Hy))).
  now apply Nat.eqb_eq in T.
Qed.

(** One call of [PercentDecoder::next] yields the head of [yields] and
    decreases the measure. *)
Lemma decoder_next_spec (s : Percent.PercentState * rstring) :
  (Percent.next s = None /\ yields s = []) \/
  exists c s', Percent.next s = Some (c, s') /\ yields s = c :: yields s'
               /\ measure s' < measure s.
Proof.
  destruct s as [st inp]; unfold yields, measure; simpl.
  destruct st as [|x y|y]; simpl.
  - destruct inp as [|c inp1]; [left; auto|right].
    simpl. destruct (c =? c_pct) eqn:Ec.
    + destruct inp1 as [|x [|y inp3]].
      * eexists _, _; split; [reflexivity|]. simpl. split; [reflexivity|lia].
      * eexists _, _; split; [reflexivity|]. simpl. split; [reflexivity|lia].
      * destruct (Percent.hexit x) eqn:Hx, (Percent.hexit y) eqn:Hy;
          (eexists _, _; split; [reflexivity|]); simpl; split; try reflexivity;
          simpl; lia.
    + eexists _, _; split; [reflexivity|]. simpl. split; [reflexivity|lia].
  - right; eexists _, _; split; [reflexivity|]. simpl. split; [reflexivity|lia].
  - right; eexists _, _; split; [reflexivity|]. simpl. split; [reflexivity|lia].
Qed.

Lemma collect_decoder (fuel : nat) (s : Percent.PercentState * rstring) :
  measure s < fuel -> collect Percent.next fuel s = yields s.
Proof.
  revert s; induction fuel as [|fuel IH]; intros s Hf; [lia|].
  simpl. destruct (decoder_next_spec s) as [[-> ->]|(c & s' & -> & -> & Hm)].
  - reflexivity.
  - f_equal. apply IH. lia.
Qed.

Lemma percent_decode_eq (path : rstring) : percent_decode path = decode path.
Proof.
  unfold percent_decode. rewrite collect_decoder; [reflexivity|].
  unfold measure; simpl; lia.
Qed.

Lemma step_state (st : Sanitizer.SanitizerState) (c : char) :
  fst (Sanitizer.step st c) = Sanitizer.Normal \/
  fst (Sanitizer.step st c) = Sanitizer.Slash.
Proof.
  unfold Sanitizer.step.
  destruct (c =? c_nul); [auto|].
  destruct st; try destruct (c =? c_slash); try destruct (c =? c_dot); simpl; auto.
Qed.

(** The [loop] of [Sanitizer::next] over the decoder. *)
Lemma loop_spec (F : nat) (state : Sanitizer.SanitizerState)
      (s : Percent.PercentState * rstring) :
  measure s < F ->
  (Sanitizer.loop Percent.next F state s = None /\ san state (yields s) = []) \/
  exists o state' s',
    Sanitizer.loop Percent.next F state s = Some (o, (state', s')) /\
    san state (yields s) = o :: san state' (yields s') /\
    measure s' < measure s /\
    (state' = Sanitizer.Normal \/ state' = Sanitizer.Slash).
Proof.
  revert state s; induction F as [|F IH]; intros state s HF; [lia|].
  simpl. destruct (decoder_next_spec s) as [[-> ->]|(c & s' & -> & -> & Hm)].
  - left; auto.
  - simpl. pose proof (step_state state c) as Hst.
    destruct (Sanitizer.step state c) as [state1 [o|]] eqn:Hstep; simpl in Hst.
    + right. exists o, state1, s'. auto.
    + destruct (IH state1 s') as [[H1 H2]|(o & st2 & s2 & H1 & H2 & H3 & H4)]; [lia| |].
      * left; auto.
      * right. exists o, st2, s2. repeat split; auto; lia.
Qed.

Lemma collect_sanitizer (F fuel : nat) (state : Sanitizer.SanitizerState)
      (s : Percent.PercentState * rstring) :
  measure s < F -> measure s < fuel ->
  (state = Sanitizer.Normal \/ state = Sanitizer.Slash) ->
  collect (Sanitizer.next Percent.next F) fuel (state, s) = san state (yields s).
Proof.
  revert state s; induction fuel as [|fuel IH]; intros state s HF Hfuel Hst; [lia|].
  assert (Hn : Sanitizer.next Percent.next F (state, s)
                = Sanitizer.loop Percent.next F state s)
    by (destruct Hst as [-> | ->]; reflexivity).
  cbn [collect]. rewrite Hn.
  destruct (loop_spec F state s HF) as [[-> ->]|(o & st' & s' & -> & -> & Hm & Hst')].
  - reflexivity.
  - f_equal. apply IH; auto; lia.
Qed.

Lemma collect_cons {S : Type} (next : S -> option (char * S)) (fuel : nat) (s : S)
      (c : char) (s' : S) :
  next s = Some (c, s') -> collect next (Datatypes.S fuel) s = c :: collect next fuel s'.
Proof. intros H; simpl; now rewrite H. Qed.

(** [sanitize_path] is the prefix ["./"] followed by the sanitizer fold over
    the decoded input. *)
Lemma sanitize_path_eq (path : rstring) :
  sanitize_path path = c_dot :: c_slash :: san Sanitizer.Slash (decode path).
Proof.
  unfold sanitize_path.
  replace (3 * List.length path + 3) with (S (S (S (3 * List.length path)))) by lia.
  rewrite (collect_cons _ _ _ c_dot (Sanitizer.EmitSlash, (Percent.Normal, path)))
    by reflexivity.
  rewrite (collect_cons _ _ _ c_slash (Sanitizer.Slash, (Percent.Normal, path)))
    by reflexivity.
  rewrite (collect_sanitizer _ _ Sanitizer.Slash (Percent.Normal, path));
    unfold measure; simpl; auto; lia.
Qed.

Lemma step_out_nonzero (st st' : Sanitizer.SanitizerState) (c o : char) :
  Sanitizer.step st c = (st', Some o) -> o <> c_nul.
Proof.
  unfold Sanitizer.step, c_nul, c_under, c_colon, c_slash, c_dot.
  destruct (Nat.eqb_spec c 0) as [_|Hc]; [intros [= _ <-]; discriminate|].
  destruct st; try destruct (Nat.eqb_spec c 47); try destruct (Nat.eqb_spec c 46);
    intros [= _ <-]; lia.
Qed.

Lemma san_no_nul (st : Sanitizer.SanitizerState) (l : rstring) :
  ~ In c_nul (san st l).
Proof.
  revert st; induction l as [|c l IH]; intros st; simpl; [auto|].
  destruct (Sanitizer.step st c) as [st' [o|]] eqn:E; [|apply IH].
  intros [Ho|Hin]; [|exact (IH st' Hin)].
  exact (step_out_nonzero _ _ _ _ E Ho).
Qed.

Lemma adjacent_slashes_cons (a : char) (t : rstring) :
  adjacent_slashes (a :: t) =
  (((a =? c_slash) && (match t with b :: _ => b =? c_slash | [] => false end))
   || adjacent_slashes t).
Proof. destruct t; simpl; [rewrite andb_false_r|]; reflexivity. Qed.

Lemma adjacent_slashes_other (x : char) (t : rstring) :
  x <> c_slash -> adjacent_slashes (x :: t) = adjacent_slashes t.
Proof.
  intros Hx. rewrite adjacent_slashes_cons.
  destruct (Nat.eqb_spec x c_slash); [contradiction|reflexivity].
Qed.

Lemma adjacent_slashes_slash (t : rstring) :
  adjacent_slashes t = false -> hd_error t <> Some c_slash ->
  adjacent_slashes (c_slash :: t) = false.
Proof.
  intros H1 H2. rewrite adjacent_slashes_cons, H1, orb_false_r.
  destruct t as [|b t]; [reflexivity|]. simpl in *.
  destruct (Nat.eqb_spec b c_slash); [congruence|]. simpl. rewrite ?andb_false_r. reflexivity.
Qed.

Lemma san_slashes (l : rstring) :
  adjacent_slashes (san Sanitizer.Normal l) = false /\
  adjacent_slashes (san Sanitizer.Slash l) = false /\
  hd_error (san Sanitizer.Slash l) <> Some c_slash.
Proof.
  induction l as [|c l (IHn & IHs & IHh)]; simpl; [repeat split; discriminate|].
  unfold Sanitizer.step.
  destruct (Nat.eqb_spec c c_nul).
  { rewrite adjacent_slashes_other by (unfold c_under, c_slash; lia).
    repeat split; [exact IHn|exact IHn|simpl; unfold c_under, c_slash; intros [=]]. }
  destruct (Nat.eqb_spec c c_slash) as [->|Hs].
  { repeat split; [apply adjacent_slashes_slash; assumption|exact IHs|exact IHh]. }
  destruct (Nat.eqb_spec c c_dot).
  { rewrite !adjacent_slashes_other by (unfold c_colon, c_slash, c_dot in *; lia).
    repeat split; [exact IHn|exact IHn|simpl; unfold c_colon, c_slash; intros [=]]. }
  rewrite !adjacent_slashes_other by exact Hs.
  repeat split; [exact IHn|exact IHn|simpl; intros [=]; contradiction].
Qed.


Lemma split_on_nonempty (sep : char) (l : rstring) :
  exists p ps, split_on sep l = p :: ps.
Proof.
  destruct l as [|c l]; simpl; [eauto|].
  destruct (c =? sep); [eauto|].
  destruct (split_on sep l); eauto.
Qed.

Lemma segments_cons_other (c : char) (l : rstring) :
  c <> c_slash ->
  exists p ps, segments l = p :: ps /\ segments (c :: l) = (c :: p) :: ps.
Proof.
  intros Hc. unfold segments. destruct (split_on_nonempty c_slash l) as (p & ps & E).
  exists p, ps. split; [exact E|]. simpl. rewrite E.
  destruct (Nat.eqb_spec c c_slash); [contradiction|reflexivity].
Qed.

Lemma segments_cons_slash (l : rstring) :
  segments (c_slash :: l) = [] :: segments l.
Proof. unfold segments; simpl. reflexivity. Qed.

Lemma seg_ok_cons_other (x : char) (l : rstring) :
  x <> c_slash -> x <> c_dot ->
  Forall seg_ok (tl (segments l)) -> Forall seg_ok (segments (x :: l)).
Proof.
  intros Hx Hd H. destruct (segments_cons_other x l Hx) as (p & ps & E1 & E2).
  rewrite E2; rewrite E1 in H. constructor; [unfold seg_ok; simpl; congruence|exact H].
Qed.

Lemma tl_segments_cons_other (x : char) (l : rstring) :
  x <> c_slash -> tl (segments (x :: l)) = tl (segments l).
Proof.
  intros Hx. destruct (segments_cons_other x l Hx) as (p & ps & E1 & E2).
  now rewrite E1, E2.
Qed.

Lemma san_segments (l : rstring) :
  Forall seg_ok (tl (segments (san Sanitizer.Normal l))) /\
  Forall seg_ok (segments (san Sanitizer.Slash l)).
Proof.
  induction l as [|c l [IHn IHs]]; simpl.
  { split; [constructor|]. constructor; [unfold seg_ok; discriminate|constructor]. }
  unfold Sanitizer.step.
  destruct (Nat.eqb_spec c c_nul).
  { split; [rewrite tl_segments_cons_other; [exact IHn|]|apply seg_ok_cons_other; auto];
      unfold c_under, c_slash, c_dot; lia. }
  destruct (Nat.eqb_spec c c_slash) as [->|Hs].
  { rewrite segments_cons_slash. split; [exact IHs|exact IHs]. }
  destruct (Nat.eqb_spec c c_dot).
  { split; [rewrite tl_segments_cons_other; [exact IHn|]|apply seg_ok_cons_other; auto];
      unfold c_colon, c_slash, c_dot in *; lia. }
  split; [rewrite tl_segments_cons_other; [exact IHn|exact Hs]|].
  apply seg_ok_cons_other; assumption.
Qed.

Lemma decode_no_pct (r : rstring) : ~ In c_pct r -> decode r = r.
Proof.
  induction r as [|c r IH]; intros H; [reflexivity|]. simpl.
  destruct (Nat.eqb_spec c c_pct) as [->|_]; [exfalso; apply H; left; reflexivity|].
  f_equal. apply IH. intros Hin; apply H; right; exact Hin.
Qed.

Lemma segments_head_other (c : char) (r : rstring) :
  c <> c_slash -> Forall seg_ok (segments (c :: r)) ->
  c <> c_dot /\ Forall seg_ok (tl (segments r)).
Proof.
  intros Hc H. destruct (segments_cons_other c r Hc) as (p & ps & E1 & E2).
  rewrite E2 in H. inversion H as [|? ? Hh Ht]; subst.
  split; [unfold seg_ok in Hh; simpl in Hh; congruence|]. now rewrite E1.
Qed.

(** On a string of the sanitizer's output shape the fold is the identity. *)
Lemma san_fixed (r : rstring) :
  ~ In c_nul r -> adjacent_slashes r = false ->
  (Forall seg_ok (tl (segments r)) -> san Sanitizer.Normal r = r) /\
  (hd_error r <> Some c_slash -> Forall seg_ok (segments r) ->
   san Sanitizer.Slash r = r).
Proof.
  induction r as [|c r IH]; intros Hnul Hadj; [split; reflexivity|].
  assert (Hc0 : c <> c_nul) by (intros ->; apply Hnul; left; reflexivity).
  assert (Hnul' : ~ In c_nul r) by (intros Hin; apply Hnul; right; exact Hin).
  simpl. unfold Sanitizer.step.
  destruct (Nat.eqb_spec c c_nul) as [|_]; [contradiction|].
  destruct (Nat.eqb_spec c c_slash) as [->|Hs].
  - assert (Hadj' : adjacent_slashes r = false)
      by (rewrite adjacent_slashes_cons in Hadj; apply orb_false_iff in Hadj; apply Hadj).
    assert (Hhd : hd_error r <> Some c_slash).
    { rewrite adjacent_slashes_cons in Hadj; apply orb_false_iff in Hadj as [Ha _].
      destruct r as [|b r]; [discriminate|]. simpl in *.
      destruct (Nat.eqb_spec b c_slash); [subst; discriminate|congruence]. }
    split; [|intros H; simpl in H; congruence].
    intros Hseg. rewrite segments_cons_slash in Hseg. simpl in Hseg.
    f_equal. apply (proj2 (IH Hnul' Hadj')); assumption.
  - rewrite adjacent_slashes_other in Hadj by exact Hs.
    split.
    + intros Hseg. rewrite tl_segments_cons_other in Hseg by exact Hs.
      f_equal. apply (proj1 (IH Hnul' Hadj)); assumption.
    + intros _ Hseg. destruct (segments_head_other c r Hs Hseg) as [Hd Htl].
      destruct (Nat.eqb_spec c c_dot); [contradiction|].
      f_equal. apply (proj1 (IH Hnul' Hadj)); assumption.
Qed.

End Normalizer.

(** ** Claims about the path normalizer *)

(** C1: for every input, the output of [sanitize_path] begins with ["./"],
    contains no NUL and no two consecutive ['/']; split on ['/'] its
    segments are the ["."] of that leading ["./"] followed by segments none
    of which is ["."] or [".."]. *)
Theorem sanitize_path_safe (s : rstring) :
  firstn 2 (sanitize_path s) = [c_dot; c_slash] /\
  ~ In c_nul (sanitize_path s) /\
  adjacent_slashes (sanitize_path s) = false /\
  exists rest, segments (sanitize_path s) = [c_dot] :: rest /\
    Forall (fun seg => seg <> [c_dot] /\ seg <> [c_dot; c_dot]) rest.
Proof.
  rewrite Normalizer.sanitize_path_eq.
  set (t := Structural.san Sanitizer.Slash (Structural.decode s)).
  destruct (Normalizer.san_slashes (Structural.decode s)) as (_ & Hadj & Hhd).
  destruct (Normalizer.san_segments (Structural.decode s)) as [_ Hseg].
  fold t in Hadj, Hhd, Hseg.
  split; [reflexivity|]. split.
  { intros [H|[H|H]]; [discriminate|discriminate|].
    exact (Normalizer.san_no_nul _ _ H). }
  split.
  { rewrite Normalizer.adjacent_slashes_other by (unfold c_dot, c_slash; lia).
    apply Normalizer.adjacent_slashes_slash; assumption. }
  exists (segments t). split.
  - destruct (Normalizer.segments_cons_other c_dot (c_slash :: t)) as (p & ps & E1 & E2);
      [unfold c_dot, c_slash; lia|].
    rewrite E2. rewrite Normalizer.segments_cons_slash in E1. injection E1 as <- <-.
    reflexivity.
  - eapply Forall_impl; [|exact Hseg].
    intros seg Hok; unfold seg_ok in Hok.
    split; intros ->; simpl in Hok; congruence.
Qed.

(** C7: the decoder turns a well-formed escape [%HH] into the one character
    whose code point is the hex value [16 * H + H'] and goes on after the
    three characters, without looking at what it produced; a ['%'] followed
    by a non-hex character among the next two, or by fewer than two
    characters, comes out literally followed by those characters, and
    decoding resumes after them. In particular ["%2525"] normalizes to
    ["./%25"]. Any other character is copied and decoding goes on with the
    next one, so escapes are decoded wherever they occur. *)
Theorem percent_decoder_escapes :
  (forall x y rest,
     percent_decode (c_pct :: x :: y :: rest) =
     match Percent.hexit x, Percent.hexit y with
     | Some a, Some b => (a * 16 + b) :: percent_decode rest
     | _, _ => c_pct :: x :: y :: percent_decode rest
     end) /\
  (forall x, percent_decode [c_pct; x] = [c_pct; x]) /\
  percent_decode [c_pct] = [c_pct] /\
  sanitize_path (str "%2525") = str "./%25" /\
  (forall c rest, c <> c_pct -> percent_decode (c :: rest) = c :: percent_decode rest) /\
  percent_decode [] = [].
Proof.
  split; [|split; [|split; [|split; [|split]]]].
  - intros x y rest. rewrite !Normalizer.percent_decode_eq. simpl.
    destruct (Percent.hexit x) as [a|] eqn:Ha, (Percent.hexit y) as [b|] eqn:Hb;
      try reflexivity.
    rewrite Normalizer.combine_spec by (eapply Normalizer.hexit_lt; eassumption).
    reflexivity.
  - intros x. rewrite Normalizer.percent_decode_eq. reflexivity.
  - reflexivity.
  - vm_compute. reflexivity.
  - intros c rest Hc. rewrite !Normalizer.percent_decode_eq. cbn [Structural.decode].
    destruct (Nat.eqb_spec c c_pct) as [E|_]; [contradiction|reflexivity].
  - reflexivity.
Qed.

Lemma percent_decoder_escapes_witness :
  percent_decode (str "a%41") = 97 :: percent_decode (str "%41").
Proof.
  apply (proj1 (proj2 (proj2 (proj2 (proj2 percent_decoder_escapes)))) 97 (str "%41")).
  unfold c_pct. lia.
Defined.

(** C9 (counterexample): ["./a"] is the normalizer's output for ["a"], has no
    ["."] segment after its leading ["./"], and normalizing it again gives
    ["./:/a"], not ["./a"]. *)
Lemma sanitize_path_not_idempotent :
  sanitize_path (str "a") = str "./a" /\
  Forall (fun seg => seg <> [c_dot] /\ seg <> [c_dot; c_dot]) (tl (segments (str "./a"))) /\
  sanitize_path (str "./a") = str "./:/a" /\
  sanitize_path (str "./a") <> str "./a".
Proof.
  split; [vm_compute; reflexivity|]. split.
  { simpl. repeat constructor; discriminate. }
  split; [vm_compute; reflexivity|]. vm_compute. discriminate.
Qed.

(** C9 (amended): for every [r] with no ['%'], no NUL, no two consecutive
    ['/'], not starting with ['/'] and with no segment starting with ['.'],
    normalizing [r] gives ["./" ++ r], and normalizing that output again
    gives ["./:/" ++ r]: the leading ["./"] is re-sanitized, so
    normalization is not idempotent on its outputs. *)
Theorem sanitize_path_on_outputs (r : rstring) :
  ~ In c_pct r -> ~ In c_nul r -> adjacent_slashes r = false ->
  hd_error r <> Some c_slash -> Forall seg_ok (segments r) ->
  sanitize_path r = [c_dot; c_slash] ++ r /\
  sanitize_path ([c_dot; c_slash] ++ r) = [c_dot; c_slash; c_colon; c_slash] ++ r.
Proof.
  intros Hpct Hnul Hadj Hhd Hseg.
  destruct (Normalizer.san_fixed r Hnul Hadj) as [_ Hs].
  rewrite !Normalizer.sanitize_path_eq. split.
  - rewrite Normalizer.decode_no_pct by exact Hpct. simpl. f_equal. f_equal. auto.
  - rewrite Normalizer.decode_no_pct.
    + change (Structural.san Sanitizer.Slash ([c_dot; c_slash] ++ r))
        with (c_colon :: c_slash :: Structural.san Sanitizer.Slash r).
      rewrite Hs by assumption. reflexivity.
    + intros [H|[H|H]]; [discriminate|discriminate|contradiction].
Qed.

Lemma sanitize_path_on_outputs_witness :
  sanitize_path (str "a/b") = str "./a/b" /\
  sanitize_path (str "./a/b") = str "./:/a/b".
Proof.
  apply (sanitize_path_on_outputs (str "a/b")).
  - simpl; intuition discriminate.
  - simpl; intuition discriminate.
  - reflexivity.
  - simpl; intros [=].
  - simpl; repeat constructor; unfold seg_ok; simpl; intros [=].
Defined.

(** ** Concrete requests against [Fixtures.site] *)
Example serve_t1 :
  serve_files Fixtures.site (Fixtures.get (str "/") false) =
  Returns {| Http.status := 200;
             Http.headers := [(CONTENT_LENGTH, Http.HVNum 11);
                              (CONTENT_TYPE, Http.HVStatic "text/html");
                              (LAST_MODIFIED, Http.HVHttpDate 1000)];
             Http.body := Http.FileStream 2 |}.
Proof. vm_compute. reflexivity. Qed.
Example serve_t2 :
  serve_files Fixtures.site (Fixtures.get (str "/") true) =
  Returns {| Http.status := 200;
             Http.headers := [(CONTENT_LENGTH, Http.HVNum 7);
                              (CONTENT_TYPE, Http.HVStatic "text/html");
                              (LAST_MODIFIED, Http.HVHttpDate 1000);
                              (CONTENT_ENCODING, Http.HVStatic "gzip")];
             Http.body := Http.FileStream 3 |}.
Proof. vm_compute. reflexivity. Qed.
Example serve_t3 :
  serve_files Fixtures.site (Fixtures.get (str "/secret.txt") false) =
  Returns (Http.set_status Http.new_response 404).
Proof. vm_compute. reflexivity. Qed.

(** ** The picky opener and the variant selector *)
Module Opener.

Lemma fmt_http_date_secs (t d : Z) : fmt_http_date t = Returns d -> d = (t / 1000000000)%Z.
Proof.
  unfold fmt_http_date. destruct (t <? 0)%Z; [discriminate|].
  destruct (253402300800 <=? t / 1000000000)%Z; [discriminate|]. now intros [= <-].
Qed.

Lemma serve_files_not_get (fs : Fs.Fs) (req : Http.Request) :
  Http.method req <> Http.GET -> Http.method req <> Http.HEAD ->
  serve_files fs req = Returns Http.not_found_response.
Proof.
  intros H1 H2. unfold serve_files.
  destruct (Http.method req); try reflexivity; contradiction.
Qed.

(** [serve_files] on GET and HEAD, by the outcome of the selector. *)
Lemma serve_files_get (fs : Fs.Fs) (req : Http.Request) :
  (Http.method req = Http.GET \/ Http.method req = Http.HEAD) ->
  serve_files fs req =
  match select_content_encoding fs (Http.accept_gzip req) (sanitize_path (Http.uri_path req)) with
  | Panics m => Panics m
  | Returns (inl (File file content_type len modified, enc)) =>
      match fmt_http_date modified with
      | Panics m => Panics m
      | Returns date =>
          Returns {| Http.status := 200;
                     Http.headers := [(CONTENT_LENGTH, Http.HVNum len);
                                      (CONTENT_TYPE, Http.HVStatic content_type);
                                      (LAST_MODIFIED, Http.HVHttpDate date)]
                                     ++ match enc with
                                        | Some e => [(CONTENT_ENCODING, Http.HVStatic e)]
                                        | None => []
                                        end;
                     Http.body := match Http.method req with
                                  | Http.GET => Http.FileStream file
                                  | _ => Http.Empty
                                  end |}
      end
  | Returns _ => Returns Http.not_found_response
  end.
Proof.
  intros Hm. unfold serve_files.
  destruct Hm as [E|E]; rewrite E;
    destruct (select_content_encoding fs (Http.accept_gzip req)
                (sanitize_path (Http.uri_path req))) as [[[[f ct l md|] enc]|e]|msg];
    try reflexivity;
    destruct (fmt_http_date md); try reflexivity;
    destruct enc; reflexivity.
Qed.

Lemma picky_open_redirect_dir (fs : Fs.Fs) (p : rstring) :
  picky_open fs p = Returns (inl Dir) ->
  picky_open_with_redirect fs p = (picky_open fs (p ++ str "/index.html"), p ++ str "/index.html").
Proof. intros H. unfold picky_open_with_redirect. now rewrite H. Qed.

End Opener.

(** C2: [picky_open] returns a [File] only when the metadata read from the
    handle it opened (an fstat, not a second lookup of the path) has
    [mode & 0o444 == 0o444] and [mode & 0o101 != 0o001]; the file's length
    and time come from that same metadata. When the opened object fails
    either test, the result is the [NotFound] error, neither [File] nor
    [Dir]. *)
Theorem picky_open_mode_gate (fs : Fs.Fs) (path : rstring) :
  (forall file ct len m,
     picky_open fs path = Returns (inl (File file ct len m)) ->
     Fs.open fs path = inl file /\
     exists meta, Fs.metadata fs file = inl meta /\
       N.land (Fs.mode meta) 292 = 292%N /\ N.land (Fs.mode meta) 65 <> 1%N /\
       Fs.file_type meta = Fs.RegularFile /\ Fs.len meta = len /\
       Fs.modified meta = Some m) /\
  (forall file meta,
     Fs.open fs path = inl file -> Fs.metadata fs file = inl meta ->
     N.land (Fs.mode meta) 292 <> 292%N \/ N.land (Fs.mode meta) 65 = 1%N ->
     picky_open fs path = Returns (inr (not_found "perms"))).
Proof.
  split.
  - intros file ct len m. unfold picky_open.
    destruct (Fs.open fs path) as [h|e] eqn:Eo; [|intros [=]].
    destruct (Fs.metadata fs h) as [meta|e] eqn:Emeta; [|intros [=]].
    destruct (N.land (Fs.mode meta) 292 =? 292)%N eqn:E1; simpl; [|intros [=]].
    destruct (N.land (Fs.mode meta) 65 =? 1)%N eqn:E2; [intros [=]|].
    destruct (Fs.file_type meta) eqn:Ef; [|intros [=]|intros [=]].
    destruct (Fs.modified meta) as [t|] eqn:Em; [|intros [=]].
    intros [= <- _ <- <-]. split; [reflexivity|]. exists meta.
    apply N.eqb_eq in E1. apply N.eqb_neq in E2. repeat split; assumption.
  - intros file meta Ho Hmeta Hbad. unfold picky_open. rewrite Ho, Hmeta.
    destruct Hbad as [Hb|Hb].
    + apply N.eqb_neq in Hb. now rewrite Hb.
    + apply N.eqb_eq in Hb. rewrite Hb, orb_true_r. reflexivity.
Qed.

Lemma picky_open_mode_gate_witness :
  picky_open Fixtures.site (str "./secret.txt") = Returns (inr (not_found "perms")).
Proof.
  apply (proj2 (picky_open_mode_gate Fixtures.site (str "./secret.txt")) 6
           (Fixtures.meta 416 Fs.RegularFile 5 (Some 0%Z))).
  - vm_compute. reflexivity.
  - vm_compute. reflexivity.
  - left. vm_compute. discriminate.
Defined.

(** C10: a regular file that opens and passes the permission test but whose
    metadata has no modification time makes [picky_open] panic (the
    [unwrap] of [meta.modified()]) rather than return a result. *)
Theorem picky_open_panics_without_mtime (fs : Fs.Fs) (path : rstring)
        (file : Fs.Handle) (meta : Fs.Metadata) :
  Fs.open fs path = inl file -> Fs.metadata fs file = inl meta ->
  N.land (Fs.mode meta) 292 = 292%N -> N.land (Fs.mode meta) 65 <> 1%N ->
  Fs.file_type meta = Fs.RegularFile -> Fs.modified meta = None ->
  picky_open fs path = Panics unwrap_msg.
Proof.
  intros Ho Hm H1 H2 Hf Hmod. unfold picky_open. rewrite Ho, Hm.
  apply N.eqb_eq in H1. apply N.eqb_neq in H2. rewrite H1, H2. simpl.
  now rewrite Hf, Hmod.
Qed.

Lemma picky_open_panics_without_mtime_witness :
  picky_open Fixtures.site (str "./nomtime.txt") = Panics unwrap_msg.
Proof.
  apply (picky_open_panics_without_mtime Fixtures.site (str "./nomtime.txt") 7
           (Fixtures.meta 420 Fs.RegularFile 5 None));
    vm_compute; first [reflexivity | discriminate].
Defined.

(** C4: when the base path opens (after the directory redirect, at
    [path1]) as a regular file with time [m], the selector serves the
    [.gz] variant exactly when [picky_open] on [path1 ++ ".gz"] yields a
    regular file whose time is [>= m]; the served entry then takes only the
    handle and the length of the [.gz] file and keeps the original content
    type and time [m], and any response to a GET or HEAD for that path
    carries [Last-Modified] of [m]. Otherwise (the [.gz] is missing, fails
    [picky_open], is not a regular file, or is strictly older) the selector
    returns the original entry untagged: a strictly older [.gz] is never
    served. *)
Theorem gzip_variant_selection (fs : Fs.Fs) (path path1 : rstring) (file : Fs.Handle)
        (ct : string) (len : N) (m : Z) :
  picky_open_with_redirect fs path = (Returns (inl (File file ct len m)), path1) ->
  (forall file' ct' len' cmod,
     picky_open fs (path1 ++ str ".gz") = Returns (inl (File file' ct' len' cmod)) ->
     (m <= cmod)%Z ->
     fst (picky_open_with_redirect_and_gzip fs path) =
     Returns (inl (File file' ct len' m, Some "gzip"%string))) /\
  (forall r enc,
     fst (picky_open_with_redirect_and_gzip fs path) = Returns (inl (r, Some enc)) ->
     exists file' ct' len' cmod,
       picky_open fs (path1 ++ str ".gz") = Returns (inl (File file' ct' len' cmod)) /\
       (m <= cmod)%Z /\ r = File file' ct len' m /\ enc = "gzip"%string) /\
  (forall req resp,
     (Http.method req = Http.GET \/ Http.method req = Http.HEAD) ->
     sanitize_path (Http.uri_path req) = path ->
     serve_files fs req = Returns resp ->
     In (LAST_MODIFIED, Http.HVHttpDate (m / 1000000000)) (Http.headers resp)) /\
  (forall r,
     picky_open fs (path1 ++ str ".gz") = Returns r ->
     (forall file' ct' len' cmod, r = inl (File file' ct' len' cmod) -> (cmod < m)%Z) ->
     fst (picky_open_with_redirect_and_gzip fs path) =
     Returns (inl (File file ct len m, None))).
Proof.
  intros Hbase.
  assert (Hgz : fst (picky_open_with_redirect_and_gzip fs path) =
                match picky_open fs (path1 ++ str ".gz") with
                | Panics msg => Panics msg
                | Returns (inl (File file' _ len' cmod)) =>
                    if (m <=? cmod)%Z
                    then Returns (inl (File file' ct len' m, Some "gzip"%string))
                    else Returns (inl (File file ct len m, None))
                | Returns _ => Returns (inl (File file ct len m, None))
                end).
  { unfold picky_open_with_redirect_and_gzip. rewrite Hbase.
    destruct (picky_open fs (path1 ++ str ".gz")) as [[[f' c' l' t'|]|e]|msg];
      try reflexivity.
    simpl. destruct (m <=? t')%Z; reflexivity. }
  split; [|split; [|split]].
  - intros file' ct' len' cmod Hopen Hle. rewrite Hgz, Hopen.
    apply Z.leb_le in Hle. now rewrite Hle.
  - intros r enc. rewrite Hgz.
    destruct (picky_open fs (path1 ++ str ".gz")) as [[[f' c' l' t'|]|e]|msg];
      try discriminate.
    destruct (m <=? t')%Z eqn:Hle; [|discriminate].
    intros [= <- <-]. exists f', c', l', t'. apply Z.leb_le in Hle. auto.
  - intros req resp Hm Hpath. rewrite (Opener.serve_files_get fs req Hm), Hpath.
    assert (Hsel : (exists f' l' enc',
                      select_content_encoding fs (Http.accept_gzip req) path =
                      Returns (inl (File f' ct l' m, enc'))) \/
                   (exists msg, select_content_encoding fs (Http.accept_gzip req) path =
                                Panics msg)).
    { unfold select_content_encoding.
      destruct (Http.accept_gzip req).
      - rewrite Hgz.
        destruct (picky_open fs (path1 ++ str ".gz")) as [[[f' c' l' t'|]|e]|msg];
          [destruct (m <=? t')%Z| | |]; eauto 6.
      - rewrite Hbase. simpl. eauto 6. }
    destruct Hsel as [(f' & l' & enc' & E)|(msg & E)]; rewrite E; [|discriminate].
    destruct (fmt_http_date m) as [d|msg] eqn:Ed; [|discriminate].
    apply Opener.fmt_http_date_secs in Ed as ->. intros [= <-]. simpl. auto.
  - intros r Hr Hold. rewrite Hgz, Hr.
    destruct r as [[f' c' l' t'|]|e]; try reflexivity.
    specialize (Hold f' c' l' t' eq_refl). apply Z.leb_gt in Hold. rewrite Hold. reflexivity.
Qed.

Lemma gzip_variant_selection_witness :
  fst (picky_open_with_redirect_and_gzip Fixtures.site (str "./")) =
  Returns (inl (File 3 "text/html"%string 7%N 1000000000000%Z, Some "gzip"%string)).
Proof.
  apply (proj1 (gzip_variant_selection Fixtures.site (str "./") (str ".//index.html") 2
                  "text/html"%string 11%N 1000000000000%Z ltac:(vm_compute; reflexivity))
           3 "text/plain"%string 7%N 1001000000000%Z).
  - vm_compute. reflexivity.
  - lia.
Defined.

(** C5: when the sanitized path [p] of a GET or HEAD opens as a directory,
    the handler opens [p ++ "/index.html"] once, and that is the final path;
    if it is a directory again, the response is the bare 404 and no further
    ["/index.html"] is appended, with or without gzip. *)
Theorem directory_index_once (fs : Fs.Fs) (req : Http.Request) :
  (Http.method req = Http.GET \/ Http.method req = Http.HEAD) ->
  picky_open fs (sanitize_path (Http.uri_path req)) = Returns (inl Dir) ->
  let p := sanitize_path (Http.uri_path req) in
  picky_open_with_redirect fs p = (picky_open fs (p ++ str "/index.html"), p ++ str "/index.html") /\
  (picky_open fs (p ++ str "/index.html") = Returns (inl Dir) ->
   picky_open_with_redirect_and_gzip fs p = (Returns (inl (Dir, None)), p ++ str "/index.html") /\
   serve_files fs req = Returns Http.not_found_response).
Proof.
  intros Hm Hdir p.
  pose proof (Opener.picky_open_redirect_dir fs p Hdir) as Hr.
  split; [exact Hr|]. intros Hdir2.
  assert (Hg : picky_open_with_redirect_and_gzip fs p =
               (Returns (inl (Dir, None)), p ++ str "/index.html")).
  { unfold picky_open_with_redirect_and_gzip. rewrite Hr, Hdir2. reflexivity. }
  split; [exact Hg|].
  rewrite (Opener.serve_files_get fs req Hm). fold p.
  unfold select_content_encoding. rewrite Hg, Hr, Hdir2.
  destruct (Http.accept_gzip req); reflexivity.
Qed.

Lemma directory_index_once_witness :
  serve_files Fixtures.site (Fixtures.get (str "/sub") false) = Returns Http.not_found_response.
Proof.
  refine (proj2 (proj2 (directory_index_once Fixtures.site (Fixtures.get (str "/sub") false)
                          (or_introl eq_refl) _) _)); vm_compute; reflexivity.
Defined.

(** C6: every response [serve_files] returns has status 200 or 404. Any
    method other than GET and HEAD gets 404 with no headers and an empty
    body; for GET and HEAD, an open error (missing file, permissions, object
    type, I/O) or a residual directory gets the same bare 404. ([serve_files]
    never returns [Err]; the panics of [picky_open] and [fmt_http_date]
    produce no response at all.) *)
Theorem serve_files_only_200_404 (fs : Fs.Fs) (req : Http.Request) :
  (forall resp, serve_files fs req = Returns resp ->
     Http.status resp = 200%N \/ Http.status resp = 404%N) /\
  (Http.method req <> Http.GET -> Http.method req <> Http.HEAD ->
   serve_files fs req =
   Returns {| Http.status := 404; Http.headers := []; Http.body := Http.Empty |}) /\
  ((Http.method req = Http.GET \/ Http.method req = Http.HEAD) ->
   (exists e, select_content_encoding fs (Http.accept_gzip req)
                (sanitize_path (Http.uri_path req)) = Returns (inr e)) \/
   (exists enc, select_content_encoding fs (Http.accept_gzip req)
                  (sanitize_path (Http.uri_path req)) = Returns (inl (Dir, enc))) ->
   serve_files fs req =
   Returns {| Http.status := 404; Http.headers := []; Http.body := Http.Empty |}).
Proof.
  split; [|split].
  - intros resp.
    destruct (Http.method req) eqn:Em;
      try (rewrite Opener.serve_files_not_get by (rewrite Em; discriminate);
           intros [= <-]; right; reflexivity);
      rewrite (Opener.serve_files_get fs req) by auto;
      destruct (select_content_encoding fs (Http.accept_gzip req)
                  (sanitize_path (Http.uri_path req))) as [[[[f ct l md|] enc]|e]|msg];
      try discriminate;
      try (intros [= <-]; right; reflexivity);
      destruct (fmt_http_date md); try discriminate;
      intros [= <-]; left; reflexivity.
  - exact (Opener.serve_files_not_get fs req).
  - intros Hm [(e & E)|(enc & E)];
      rewrite (Opener.serve_files_get fs req Hm), E; reflexivity.
Qed.

Lemma serve_files_only_200_404_witness :
  serve_files Fixtures.site
    {| Http.method := Http.POST; Http.uri_path := str "/index.html";
       Http.accept_encoding := [] |} =
  Returns {| Http.status := 404; Http.headers := []; Http.body := Http.Empty |}.
Proof.
  apply (proj1 (proj2 (serve_files_only_200_404 Fixtures.site
                         {| Http.method := Http.POST; Http.uri_path := str "/index.html";
                            Http.accept_encoding := [] |})));
    discriminate.
Defined.

(** ** Startup *)
Module StartupRun.
Import Startup.

Example get_args_t1 :
  Cli.get_args [str "-c"; str "-U"; str "33"; str "/srv/www"] =
  Some {| Cli.root := str "/srv/www"; Cli.key_path := str "localhost.key";
          Cli.cert_path := str "localhost.crt"; Cli.should_chroot := false;
          Cli.addr := Cli.default_addr; Cli.uid := Some 33%N; Cli.gid := None |}.
Proof. vm_compute. reflexivity. Qed.
Example get_args_t2 : Cli.get_args [str "-c"] = None.
Proof. vm_compute. reflexivity. Qed.


Lemma firstn_app_full {A : Type} (l l' : list A) (k : nat) :
  firstn (List.length l + k) (l ++ l') = l ++ firstn k l'.
Proof.
  induction l as [|a l IH]; simpl; [reflexivity|]. now rewrite IH.
Qed.


Lemma perform_all_run (env : Env) (es : list Event) (tr : list Event) :
  (forallb env es = true /\ perform_all env es tr = (inl tt, tr ++ es)) \/
  (forallb env es = false /\
   exists e pre rest, perform_all env es tr = (inr (Fatal e), tr ++ pre) /\ pre ++ rest = es).
Proof.
  revert tr; induction es as [|e es IH]; intros tr.
  - left. simpl. rewrite app_nil_r. auto.
  - simpl. unfold bind, perform. destruct (env e) eqn:Ee; cbv beta iota.
    + destruct (IH (tr ++ [e])) as [[H1 H2]|[H1 (e' & pre & rest & H2 & H3)]].
      * left. rewrite H1, H2, <- app_assoc. auto.
      * right. split; [exact H1|]. exists e', (e :: pre), rest.
        rewrite H2, <- app_assoc, <- H3. auto.
    + right. split; [reflexivity|]. exists (error_of e), [e], es. auto.
Qed.

Lemma bind_perform {A : Type} (env : Env) (e : Event) (k : unit -> M A) (tr : list Event) :
  bind (perform env e) k tr =
  if env e then k tt (tr ++ [e]) else (inr (Fatal (error_of e)), tr ++ [e]).
Proof. unfold bind, perform. destruct (env e); reflexivity. Qed.

Lemma bind_ok {A B : Type} (m : M A) (k : A -> M B) (tr tr' : list Event) (a : A) :
  m tr = (inl a, tr') -> bind m k tr = k a tr'.
Proof. intros H. unfold bind. now rewrite H. Qed.

Lemma bind_err {A B : Type} (m : M A) (k : A -> M B) (tr tr' : list Event) (s : Stop) :
  m tr = (inr s, tr') -> bind m k tr = (inr s, tr').
Proof. intros H. unfold bind. now rewrite H. Qed.

(** [drop_privs] issues exactly [drop_sequence], in order. *)
Lemma drop_privs_perform_all (env : Env) (args : Cli.Args) (tr : list Event) :
  drop_privs env args tr = perform_all env (drop_sequence args) tr.
Proof.
  unfold drop_privs, drop_sequence.
  destruct (Cli.should_chroot args), (Cli.gid args) as [g|], (Cli.uid args) as [u|];
    simpl; unfold bind, perform, ret;
    repeat match goal with
           | |- context [env ?e] => let E := fresh "E" in destruct (env e) eqn:E
           end; reflexivity.
Qed.

(** [start] after a successful [get_args] issues a prefix of the plan
    [opening ++ drop_sequence ++ [SetSingleCert]]; it enters the accept loop
    exactly when every step of the plan succeeds. *)
Lemma start_run (env : Env) (argv : list rstring) (args : Cli.Args) :
  Cli.get_args argv = Some args ->
  let plan := opening args ++ drop_sequence args ++ [SetSingleCert] in
  (forallb env plan = true /\ start env argv [] = (inl tt, plan ++ [EnterAcceptLoop])) \/
  (forallb env plan = false /\
   exists s pre rest, start env argv [] = (inr s, pre) /\ pre ++ rest = plan).
Proof.
  intros Hargs plan.
  assert (Hst : start env argv [] =
                bind (perform env (LoadKeyAndCert (Cli.key_path args) (Cli.cert_path args)))
                  (fun _ => bind (perform env (Bind (Cli.addr args)))
                  (fun _ => bind (drop_privs env args)
                  (fun _ => bind (perform env SetSingleCert)
                  (fun _ tr => (inl tt, tr ++ [EnterAcceptLoop]))))) []).
  { unfold start, bind at 1. rewrite Hargs. reflexivity. }
  rewrite Hst; clear Hst. unfold plan, opening. rewrite !forallb_app. cbn [forallb].
  rewrite bind_perform.
  destruct (env (LoadKeyAndCert (Cli.key_path args) (Cli.cert_path args))) eqn:E1;
    cbn [andb];
    [|right; split; [reflexivity|eexists _, _, _; split; reflexivity]].
  rewrite bind_perform.
  destruct (env (Bind (Cli.addr args))) eqn:E2; cbn [andb];
    [|right; split; [reflexivity|eexists _, _, _; split; reflexivity]].
  destruct (perform_all_run env (drop_sequence args)
              ([] ++ [LoadKeyAndCert (Cli.key_path args) (Cli.cert_path args)]
                  ++ [Bind (Cli.addr args)]))
    as [[Hall Hd]|[Hall (e & pre & rest & Hd & Hpre)]];
    rewrite <- drop_privs_perform_all in Hd.
  - rewrite (bind_ok _ _ _ _ _ Hd), Hall, bind_perform. cbn [andb].
    destruct (env SetSingleCert) eqn:E3.
    + left. split; [reflexivity|]. rewrite <- !app_assoc. reflexivity.
    + right. split; [reflexivity|]. eexists _, _, []. split; [reflexivity|].
      rewrite app_nil_r, <- !app_assoc. reflexivity.
  - right. rewrite Hall. split; [reflexivity|].
    rewrite (bind_err _ _ _ _ _ Hd).
    eexists _, _, (rest ++ [SetSingleCert]). split; [reflexivity|].
    rewrite <- Hpre, <- !app_assoc. reflexivity.
Qed.

Lemma drop_sequence_no_accept (args : Cli.Args) :
  ~ In EnterAcceptLoop (opening args ++ drop_sequence args ++ [SetSingleCert]).
Proof.
  unfold opening, drop_sequence.
  destruct (Cli.should_chroot args), (Cli.gid args), (Cli.uid args);
    simpl; intuition discriminate.
Qed.

End StartupRun.

(** C8: after a successful [get_args], [start] issues its operations as a
    prefix of: load key and certificate, bind, then the privilege drop
    [chdir root; chroot root (if [should_chroot]); setgid gid; setgroups
    [gid] (if a GID); setuid uid (if a UID)], then the TLS configuration and
    the accept loop. So the drop happens once, after the bind and before the
    accept loop, which is entered only after the complete sequence; a failing
    step of the drop stops [start] with an error before the accept loop. *)
Theorem start_privilege_drop_order (env : Startup.Env) (argv : list rstring)
        (args : Cli.Args) :
  Cli.get_args argv = Some args ->
  (In Startup.EnterAcceptLoop (snd (Startup.start env argv [])) ->
   snd (Startup.start env argv []) =
   Startup.opening args ++ Startup.drop_sequence args
     ++ [Startup.SetSingleCert; Startup.EnterAcceptLoop]) /\
  (exists rest, snd (Startup.start env argv []) ++ rest =
                Startup.opening args ++ Startup.drop_sequence args
                  ++ [Startup.SetSingleCert; Startup.EnterAcceptLoop]) /\
  (forall e, In e (Startup.drop_sequence args) -> env e = false ->
   fst (Startup.start env argv []) <> inl tt /\
   ~ In Startup.EnterAcceptLoop (snd (Startup.start env argv []))).
Proof.
  intros Hargs.
  pose proof (StartupRun.drop_sequence_no_accept args) as Hna.
  assert (Hplan : Startup.opening args ++ Startup.drop_sequence args
                    ++ [Startup.SetSingleCert; Startup.EnterAcceptLoop] =
                  (Startup.opening args ++ Startup.drop_sequence args
                    ++ [Startup.SetSingleCert]) ++ [Startup.EnterAcceptLoop])
    by (rewrite <- !app_assoc; reflexivity).
  rewrite Hplan.
  destruct (StartupRun.start_run env argv args Hargs)
    as [[Hall Hs]|[Hall (s & pre & rest & Hs & Hpre)]]; rewrite Hs; cbn [fst snd].
  - split; [reflexivity|]. split; [exists []; apply app_nil_r|].
    intros e He Hfalse. exfalso.
    assert (Hin : In e (Startup.opening args ++ Startup.drop_sequence args
                          ++ [Startup.SetSingleCert]))
      by (apply in_or_app; right; apply in_or_app; left; exact He).
    rewrite forallb_forall in Hall. rewrite (Hall e Hin) in Hfalse. discriminate.
  - split.
    { intros Hin. exfalso. apply Hna. rewrite <- Hpre. apply in_or_app. left. exact Hin. }
    split; [exists (rest ++ [Startup.EnterAcceptLoop]); rewrite app_assoc, Hpre; reflexivity|].
    intros e _ _. split; [discriminate|].
    intros Hin. apply Hna. rewrite <- Hpre. apply in_or_app. left. exact Hin.
Qed.

Lemma start_privilege_drop_order_witness :
  exists rest,
    snd (Startup.start (fun _ => true) [str "-U"; str "33"; str "/srv/www"] []) ++ rest =
    [Startup.LoadKeyAndCert (str "localhost.key") (str "localhost.crt");
     Startup.Bind Cli.default_addr; Startup.Chdir (str "/srv/www");
     Startup.Setuid 33; Startup.SetSingleCert; Startup.EnterAcceptLoop].
Proof.
  exact (proj1 (proj2 (start_privilege_drop_order (fun _ => true)
                         [str "-U"; str "33"; str "/srv/www"]
                         {| Cli.root := str "/srv/www"; Cli.key_path := str "localhost.key";
                            Cli.cert_path := str "localhost.crt"; Cli.should_chroot := false;
                            Cli.addr := Cli.default_addr; Cli.uid := Some 33%N;
                            Cli.gid := None |}
                         ltac:(vm_compute; reflexivity)))).
Defined.

(** C3 (code defect): [-c] is a flag without a value, so clap records its
    occurrence but [value_of("chroot")] is [None]; [value_t!(matches,
    "chroot", bool)] is then [Err] and [should_chroot] is [false]. Started
    with [-c /srv/www], the server never issues [chroot], whatever the
    outcome of the other operations. *)
Theorem chroot_flag_ignored (env : Startup.Env) :
  (exists m, Cli.get_matches [str "-c"; str "/srv/www"] = Some m /\
             In "chroot"%string (Cli.present m) /\ Cli.value_of m "chroot" = None) /\
  (exists args, Cli.get_args [str "-c"; str "/srv/www"] = Some args /\
                Cli.should_chroot args = false) /\
  ~ In (Startup.Chroot (str "/srv/www"))
       (snd (Startup.start env [str "-c"; str "/srv/www"] [])).
Proof.
  split; [eexists; split; [vm_compute; reflexivity|split; vm_compute; auto]|].
  split; [eexists; split; [vm_compute; reflexivity|reflexivity]|].
  destruct (StartupRun.start_run env [str "-c"; str "/srv/www"]
              {| Cli.root := str "/srv/www"; Cli.key_path := str "localhost.key";
                 Cli.cert_path := str "localhost.crt"; Cli.should_chroot := false;
                 Cli.addr := Cli.default_addr; Cli.uid := None; Cli.gid := None |}
              ltac:(vm_compute; reflexivity))
    as [[_ Hs]|[_ (s & pre & rest & Hs & Hpre)]]; rewrite Hs; simpl.
  - intuition discriminate.
  - intros Hin. assert (Hin' : In (Startup.Chroot (str "/srv/www")) (pre ++ rest))
      by (apply in_or_app; left; exact Hin).
    rewrite Hpre in Hin'. simpl in Hin'. intuition discriminate.
Qed.

(** * Further properties *)

(** ** Lengths through the normalizer *)
Module Lengths.
Import Structural.

Lemma decode_length_bounds (l : rstring) :
  List.length (decode l) <= List.length l /\ List.length l <= 3 * List.length (decode l).
Proof.
  remember (List.length l) as n eqn:En. revert l En.
  induction n as [n IH] using lt_wf_ind. intros l En. subst n.
  destruct l as [|c l1]; [simpl; lia|]. cbn [decode].
  destruct (c =? c_pct).
  - destruct l1 as [|x [|y l3]]; [simpl; lia|simpl; lia|].
    destruct (IH (List.length l3) ltac:(simpl; lia) l3 eq_refl) as [H1 H2].
    destruct (Percent.hexit x), (Percent.hexit y); simpl; lia.
  - destruct (IH (List.length l1) ltac:(simpl; lia) l1 eq_refl) as [H1 H2]. simpl. lia.
Qed.

Lemma san_length (st : Sanitizer.SanitizerState) (l : rstring) :
  List.length (san st l) <= List.length l.
Proof.
  revert st; induction l as [|c l IH]; intros st; simpl; [lia|].
  destruct (Sanitizer.step st c) as [st' [o|]]; simpl; specialize (IH st'); lia.
Qed.

Lemma san_nonslash (st : Sanitizer.SanitizerState) (l : rstring) :
  List.length (filter (fun c => negb (c =? c_slash)) (san st l)) =
  List.length (filter (fun c => negb (c =? c_slash)) l).
Proof.
  revert st; induction l as [|c l IH]; intros st; [reflexivity|].
  cbn [san]. unfold Sanitizer.step.
  unfold c_nul, c_slash, c_dot, c_colon, c_under in *.
  destruct (Nat.eqb_spec c 0) as [->|H0]; [cbn; rewrite IH; reflexivity|].
  destruct (Nat.eqb_spec c 47) as [->|H47]; [destruct st; cbn; rewrite ?IH; reflexivity|].
  apply Nat.eqb_neq in H47.
  destruct (Nat.eqb_spec c 46) as [->|H46]; [destruct st; cbn; rewrite ?IH; reflexivity|].
  apply Nat.eqb_neq in H46.
  destruct st; cbn [filter]; rewrite H47; simpl; rewrite IH; reflexivity.
Qed.

Lemma decode_app_no_pct (p l : rstring) : ~ In c_pct p -> decode (p ++ l) = p ++ decode l.
Proof.
  induction p as [|c p IH]; intros H; [reflexivity|]. cbn [app decode].
  destruct (Nat.eqb_spec c c_pct) as [->|_]; [exfalso; apply H; left; reflexivity|].
  f_equal. apply IH. intros Hin; apply H; right; exact Hin.
Qed.

Lemma san_slash_slash (p q : rstring) (st : Sanitizer.SanitizerState) :
  st = Sanitizer.Normal \/ st = Sanitizer.Slash ->
  san st (p ++ c_slash :: c_slash :: q) = san st (p ++ c_slash :: q).
Proof.
  revert st; induction p as [|c p IH]; intros st Hst.
  - destruct Hst as [-> | ->]; reflexivity.
  - cbn [app san]. pose proof (Normalizer.step_state st c) as Hs.
    destruct (Sanitizer.step st c) as [st' [o|]]; simpl in Hs;
      rewrite IH by (destruct Hs; auto); reflexivity.
Qed.

End Lengths.

(** ** Iteration states and [size_hint] *)
Module Hints.
Import Structural.

Lemma skipn_collect {S : Type} (next : S -> option (char * S)) (k fuel : nat) (s s' : S) :
  advance next k s = Some s' -> skipn k (collect next fuel s) = collect next (fuel - k) s'.
Proof.
  revert fuel s; induction k as [|k IH]; intros fuel s H.
  - injection H as <-. rewrite Nat.sub_0_r. reflexivity.
  - cbn [advance] in H. destruct (next s) as [[c s1]|] eqn:En; [|discriminate].
    destruct fuel as [|fuel]; [reflexivity|].
    cbn [collect]. rewrite En. cbn [skipn]. rewrite Nat.sub_succ. apply IH; exact H.
Qed.

Lemma advance_add {S : Type} (next : S -> option (char * S)) (a b : nat) (s : S) :
  advance next (a + b) s =
  match advance next a s with Some s' => advance next b s' | None => None end.
Proof.
  revert s; induction a as [|a IH]; intros s; [reflexivity|].
  cbn [advance Nat.add]. destruct (next s) as [[c s1]|]; [apply IH|reflexivity].
Qed.

Lemma utf8_bytes_bounds (l : rstring) :
  List.length l <= utf8_bytes l /\ utf8_bytes l <= 4 * List.length l.
Proof.
  induction l as [|c l IH]; simpl; [lia|].
  assert (1 <= utf8_len c <= 4) by (unfold utf8_len; repeat destruct (_ <? _); lia). lia.
Qed.

Lemma pending_length (st : Percent.PercentState) : List.length (pending st) <= 2.
Proof. destruct st; simpl; lia. Qed.

(** The [loop] of [Sanitizer::next] yields a prefix of the fold, whatever
    its fuel. *)
Lemma loop_prefix (F : nat) (state : Sanitizer.SanitizerState)
      (s : Percent.PercentState * rstring) :
  Sanitizer.loop Percent.next F state s = None \/
  exists o state' s',
    Sanitizer.loop Percent.next F state s = Some (o, (state', s')) /\
    san state (yields s) = o :: san state' (yields s') /\
    (state' = Sanitizer.Normal \/ state' = Sanitizer.Slash).
Proof.
  revert state s; induction F as [|F IH]; intros state s; [left; reflexivity|].
  simpl. destruct (Normalizer.decoder_next_spec s) as [[-> _]|(c & s' & -> & -> & _)].
  - left; reflexivity.
  - simpl. pose proof (Normalizer.step_state state c) as Hst.
    destruct (Sanitizer.step state c) as [state1 [o|]] eqn:Hstep; simpl in Hst.
    + right. exists o, state1, s'. auto.
    + destruct (IH state1 s') as [H1|(o & st2 & s2 & H1 & H2 & H3)].
      * left; exact H1.
      * right. exists o, st2, s2. auto.
Qed.

Lemma collect_sanitizer_prefix (F fuel : nat) (state : Sanitizer.SanitizerState)
      (s : Percent.PercentState * rstring) :
  (state = Sanitizer.Normal \/ state = Sanitizer.Slash) ->
  exists rest, collect (Sanitizer.next Percent.next F) fuel (state, s) ++ rest
               = san state (yields s).
Proof.
  revert state s; induction fuel as [|fuel IH]; intros state s Hst.
  - eexists; reflexivity.
  - assert (Hn : Sanitizer.next Percent.next F (state, s)
                  = Sanitizer.loop Percent.next F state s)
      by (destruct Hst as [-> | ->]; reflexivity).
    cbn [collect]. rewrite Hn.
    destruct (loop_prefix F state s) as [->|(o & st' & s' & -> & -> & Hst')].
    + eexists; reflexivity.
    + destruct (IH st' s' Hst') as [rest Hr]. exists rest. simpl. now rewrite Hr.
Qed.

(** What is left of a sanitizer run, from a state in which the two emitting
    states only occur before the decoder has started. *)
Lemma sanitizer_remaining_bound (F fuel : nat) (state : Sanitizer.SanitizerState)
      (s : Percent.PercentState * rstring) :
  match state with
  | Sanitizer.EmitDot | Sanitizer.EmitSlash => fst s = Percent.Normal
  | _ => True
  end ->
  List.length (collect (Sanitizer.next Percent.next F) fuel (state, s))
  <= utf8_bytes (snd s) + 2.
Proof.
  intros Hinv. destruct s as [pst inner]. cbn [snd].
  pose proof (proj1 (utf8_bytes_bounds inner)) as Hb.
  pose proof (proj1 (Lengths.decode_length_bounds inner)) as Hd.
  pose proof (pending_length pst) as Hp.
  assert (Hsan : forall st, st = Sanitizer.Normal \/ st = Sanitizer.Slash ->
            forall fuel', List.length (collect (Sanitizer.next Percent.next F) fuel' (st, (pst, inner)))
                          <= List.length (pending pst) + List.length (decode inner)).
  { intros st Hst fuel'.
    destruct (collect_sanitizer_prefix F fuel' st (pst, inner) Hst) as [rest Hr].
    pose proof (f_equal (@List.length _) Hr) as Hl. rewrite length_app in Hl.
    pose proof (Lengths.san_length st (yields (pst, inner))) as Hs.
    assert (Hy : List.length (yields (pst, inner))
                 = List.length (pending pst) + List.length (decode inner))
      by (unfold yields; cbn [fst snd]; apply length_app).
    lia. }
  destruct state; cbn [fst] in Hinv.
  - subst pst. destruct fuel as [|[|fuel]]; cbn [collect Sanitizer.next List.length]; [lia|lia|].
    specialize (Hsan Sanitizer.Slash (or_intror eq_refl) fuel). simpl in Hsan. lia.
  - subst pst. destruct fuel as [|fuel]; cbn [collect Sanitizer.next List.length]; [lia|].
    specialize (Hsan Sanitizer.Slash (or_intror eq_refl) fuel). simpl in Hsan. lia.
  - specialize (Hsan Sanitizer.Normal (or_introl eq_refl) fuel). lia.
  - specialize (Hsan Sanitizer.Slash (or_intror eq_refl) fuel). lia.
Qed.

Lemma sanitizer_advance_inv (F k : nat)
      (st st' : Sanitizer.SanitizerState * (Percent.PercentState * rstring)) :
  advance (Sanitizer.next Percent.next F) k st = Some st' ->
  match fst st with
  | Sanitizer.EmitDot | Sanitizer.EmitSlash => fst (snd st) = Percent.Normal
  | _ => True
  end ->
  match fst st' with
  | Sanitizer.EmitDot | Sanitizer.EmitSlash => fst (snd st') = Percent.Normal
  | _ => True
  end.
Proof.
  revert st; induction k as [|k IH]; intros st H Hinv; cbn [advance] in H.
  - injection H as <-; exact Hinv.
  - destruct (Sanitizer.next Percent.next F st) as [[c s1]|] eqn:En; [|discriminate].
    apply (IH s1 H). destruct st as [state s].
    destruct state; cbn [Sanitizer.next] in En.
    + injection En as _ <-. exact Hinv.
    + injection En as _ <-. exact I.
    + destruct (loop_prefix F Sanitizer.Normal s) as [E|(o & st2 & s2 & E & _ & Hst2)];
        rewrite E in En; [discriminate|].
      injection En as _ <-. destruct Hst2 as [-> | ->]; exact I.
    + destruct (loop_prefix F Sanitizer.Slash s) as [E|(o & st2 & s2 & E & _ & Hst2)];
        rewrite E in En; [discriminate|].
      injection En as _ <-. destruct Hst2 as [-> | ->]; exact I.
Qed.

Lemma decoder_advance_measure (k : nat) (s s' : Percent.PercentState * rstring) :
  advance Percent.next k s = Some s' -> measure s' + k <= measure s.
Proof.
  revert s; induction k as [|k IH]; intros s H; cbn [advance] in H.
  - injection H as <-. lia.
  - destruct (Normalizer.decoder_next_spec s) as [[E _]|(c & s1 & E & _ & Hm)];
      rewrite E in H; [discriminate|].
    specialize (IH s1 H). lia.
Qed.

(** After [k] calls of [PercentDecoder::next] from the start, what is left of
    [percent_decode] is what the reached state still yields. *)
Lemma decoder_remaining (path : rstring) (k : nat) (s : Percent.PercentState * rstring) :
  advance Percent.next k (Percent.Normal, path) = Some s ->
  skipn k (percent_decode path) = yields s.
Proof.
  intros H. unfold percent_decode. rewrite (skipn_collect _ _ _ _ _ H).
  apply Normalizer.collect_decoder.
  pose proof (decoder_advance_measure k _ _ H) as Hm.
  change (measure (Percent.Normal, path)) with (List.length path) in Hm. lia.
Qed.

Lemma decoder_advance_no_pct (q r : rstring) :
  ~ In c_pct q ->
  advance Percent.next (List.length q) (Percent.Normal, q ++ r) = Some (Percent.Normal, r).
Proof.
  induction q as [|c q IH]; intros H; [reflexivity|].
  cbn [List.length advance app Percent.next].
  destruct (Nat.eqb_spec c c_pct) as [->|_]; [exfalso; apply H; left; reflexivity|].
  apply IH. intros Hin; apply H; right; exact Hin.
Qed.

End Hints.

(** ** Paths the handler opens *)
Module Confinement.

Lemma split_on_app (sep : char) (l1 l2 : rstring) :
  exists pre lastp, split_on sep l1 = pre ++ [lastp] /\
    forall h2 t2, split_on sep l2 = h2 :: t2 ->
      split_on sep (l1 ++ l2) = pre ++ (lastp ++ h2) :: t2.
Proof.
  induction l1 as [|c l1 (pre & lastp & E1 & E2)].
  - exists [], []. split; [reflexivity|]. intros h2 t2 H. exact H.
  - cbn [split_on app]. destruct (c =? sep).
    + exists ([] :: pre), lastp. rewrite E1. split; [reflexivity|].
      intros h2 t2 H. rewrite (E2 h2 t2 H). reflexivity.
    + destruct pre as [|p0 pre].
      * exists [], (c :: lastp). rewrite E1. split; [reflexivity|].
        intros h2 t2 H. rewrite (E2 h2 t2 H). reflexivity.
      * exists ((c :: p0) :: pre), lastp. rewrite E1. split; [reflexivity|].
        intros h2 t2 H. rewrite (E2 h2 t2 H). reflexivity.
Qed.

Lemma segments_app_index (p : rstring) :
  segments (p ++ str "/index.html") = segments p ++ [str "index.html"].
Proof.
  unfold segments. destruct (split_on_app c_slash p (str "/index.html")) as (pre & lastp & E1 & E2).
  rewrite (E2 [] [str "index.html"] eq_refl), E1, app_nil_r, <- app_assoc. reflexivity.
Qed.

Lemma firstn2_app (p l : rstring) :
  firstn 2 p = [c_dot; c_slash] -> firstn 2 (p ++ l) = [c_dot; c_slash].
Proof. destruct p as [|a [|b p]]; simpl; intros H; [discriminate|discriminate|exact H]. Qed.

Lemma safe_path_index (p : rstring) : safe_path p -> safe_path (p ++ str "/index.html").
Proof.
  intros [Hf Hs]. split; [apply firstn2_app; exact Hf|].
  rewrite segments_app_index.
  destruct (segments p) as [|s0 ss]; cbn [tl app] in *; [repeat constructor; discriminate|].
  apply Forall_app. split; [exact Hs|]. repeat constructor; discriminate.
Qed.

Lemma safe_path_gz (p : rstring) : safe_path p -> safe_path (p ++ str ".gz").
Proof.
  intros [Hf Hs]. split; [apply firstn2_app; exact Hf|].
  unfold segments in *. destruct (split_on_app c_slash p (str ".gz")) as (pre & lastp & E1 & E2).
  rewrite (E2 (str ".gz") [] eq_refl). rewrite E1 in Hs.
  destruct pre as [|p0 pre]; cbn [tl app] in *; [constructor|].
  apply Forall_app in Hs as [Hpre _]. apply Forall_app. split; [exact Hpre|].
  constructor; [|constructor].
  split; intros H; apply (f_equal (@List.length _)) in H; rewrite length_app in H;
    simpl in H; lia.
Qed.

Lemma safe_sanitize (s : rstring) : safe_path (sanitize_path s).
Proof.
  rewrite Normalizer.sanitize_path_eq.
  destruct (Normalizer.san_segments (Structural.decode s)) as [_ Hseg].
  split; [reflexivity|].
  destruct (Normalizer.segments_cons_other c_dot
              (c_slash :: Structural.san Sanitizer.Slash (Structural.decode s)))
    as (p & ps & E1 & E2); [unfold c_dot, c_slash; lia|].
  rewrite E2. rewrite Normalizer.segments_cons_slash in E1. injection E1 as <- <-. cbn [tl].
  eapply Forall_impl; [|exact Hseg].
  intros seg Hok; unfold seg_ok in Hok. split; intros ->; simpl in Hok; congruence.
Qed.

Lemma redirect_path (fs : Fs.Fs) (p : rstring) :
  snd (picky_open_with_redirect fs p) = p \/
  snd (picky_open_with_redirect fs p) = p ++ str "/index.html".
Proof.
  unfold picky_open_with_redirect.
  destruct (picky_open fs p) as [[[f ct l m|]|e]|msg]; simpl; auto.
Qed.

Lemma redirect_path_safe (fs : Fs.Fs) (p : rstring) :
  safe_path p -> safe_path (snd (picky_open_with_redirect fs p)).
Proof.
  intros Hp. destruct (redirect_path fs p) as [-> | ->]; [exact Hp|].
  apply safe_path_index; exact Hp.
Qed.

Section Agree.
Variables fs fs' : Fs.Fs.
Hypothesis Hopen : forall p, safe_path p -> Fs.open fs p = Fs.open fs' p.
Hypothesis Hmeta : forall p h, safe_path p -> Fs.open fs p = inl h ->
                               Fs.metadata fs h = Fs.metadata fs' h.

Lemma picky_open_agree (p : rstring) : safe_path p -> picky_open fs p = picky_open fs' p.
Proof.
  intros Hp. unfold picky_open. pose proof (Hopen p Hp) as Ho. rewrite Ho.
  destruct (Fs.open fs' p) as [h|e]; [rewrite (Hmeta p h Hp Ho)|]; reflexivity.
Qed.

Lemma redirect_agree (p : rstring) :
  safe_path p -> picky_open_with_redirect fs p = picky_open_with_redirect fs' p.
Proof.
  intros Hp. unfold picky_open_with_redirect. cbv zeta.
  rewrite (picky_open_agree p Hp).
  rewrite (picky_open_agree (p ++ str "/index.html") (safe_path_index p Hp)).
  reflexivity.
Qed.

Lemma gzip_agree (p : rstring) :
  safe_path p -> picky_open_with_redirect_and_gzip fs p = picky_open_with_redirect_and_gzip fs' p.
Proof.
  intros Hp. unfold picky_open_with_redirect_and_gzip.
  rewrite (redirect_agree p Hp).
  pose proof (redirect_path_safe fs' p Hp) as Hp1.
  destruct (picky_open_with_redirect fs' p) as [r path1]. cbn [snd] in Hp1.
  destruct r as [[[f ct l m|]|e]|msg]; cbv beta iota zeta; try reflexivity.
  rewrite (picky_open_agree (path1 ++ str ".gz") (safe_path_gz path1 Hp1)).
  reflexivity.
Qed.

Lemma select_agree (g : bool) (p : rstring) :
  safe_path p -> select_content_encoding fs g p = select_content_encoding fs' g p.
Proof.
  intros Hp. unfold select_content_encoding.
  rewrite (gzip_agree p Hp), (redirect_agree p Hp). reflexivity.
Qed.

End Agree.

End Confinement.

(** ** What [serve_files] serves *)
Module ServeFacts.

Lemma picky_open_file (fs : Fs.Fs) (p : rstring) (f : Fs.Handle) (ct : string) (l : N) (m : Z) :
  picky_open fs p = Returns (inl (File f ct l m)) ->
  ct = map_content_type p /\ Fs.open fs p = inl f /\
  exists meta, Fs.metadata fs f = inl meta /\
    N.land (Fs.mode meta) 292 = 292%N /\ N.land (Fs.mode meta) 65 <> 1%N /\
    Fs.file_type meta = Fs.RegularFile /\ Fs.len meta = l /\ Fs.modified meta = Some m.
Proof.
  unfold picky_open.
  destruct (Fs.open fs p) as [h|e]; [|intros [=]].
  destruct (Fs.metadata fs h) as [meta|e] eqn:Emeta; [|intros [=]].
  destruct (N.land (Fs.mode meta) 292 =? 292)%N eqn:E1; simpl; [|intros [=]].
  destruct (N.land (Fs.mode meta) 65 =? 1)%N eqn:E2; [intros [=]|].
  destruct (Fs.file_type meta) eqn:Ef; [|intros [=]|intros [=]].
  destruct (Fs.modified meta) as [t|] eqn:Em; [|intros [=]].
  intros [= <- <- <- <-]. split; [reflexivity|]. split; [reflexivity|]. exists meta.
  apply N.eqb_eq in E1. apply N.eqb_neq in E2. repeat split; assumption.
Qed.

Lemma redirect_file (fs : Fs.Fs) (p : rstring) (f : Fs.Handle) (ct : string) (l : N) (m : Z) :
  fst (picky_open_with_redirect fs p) = Returns (inl (File f ct l m)) ->
  picky_open fs (snd (picky_open_with_redirect fs p)) = Returns (inl (File f ct l m)).
Proof.
  unfold picky_open_with_redirect.
  destruct (picky_open fs p) as [[[f0 c0 l0 m0|]|e]|msg] eqn:E; simpl; try discriminate;
    intros H; rewrite <- H; [exact E|reflexivity].
Qed.

(** Where the entry chosen by the selector comes from. *)
Lemma select_file_origin (fs : Fs.Fs) (g : bool) (s : rstring)
      (f : Fs.Handle) (ct : string) (l : N) (m : Z) (enc : option string) :
  select_content_encoding fs g s = Returns (inl (File f ct l m, enc)) ->
  exists f0 l0,
    fst (picky_open_with_redirect fs s) = Returns (inl (File f0 ct l0 m)) /\
    ((f = f0 /\ l = l0 /\ enc = None) \/
     (exists ct' m', picky_open fs (snd (picky_open_with_redirect fs s) ++ str ".gz")
                     = Returns (inl (File f ct' l m')) /\
                     enc = Some "gzip"%string /\ g = true)).
Proof.
  unfold select_content_encoding, picky_open_with_redirect_and_gzip.
  destruct (picky_open_with_redirect fs s) as [r p1]. cbn [fst snd].
  destruct g.
  - destruct r as [[[f0 c0 l0 m0|]|e]|msg]; try (simpl; discriminate).
    destruct (picky_open fs (p1 ++ str ".gz")) as [[[f1 c1 l1 m1|]|e]|msg] eqn:Egz;
      cbv beta iota zeta; try discriminate.
    + destruct (m0 <=? m1)%Z; intros H; inversion H; subst.
      * exists f0, l0. split; [reflexivity|]. right. exists c1, m1. auto.
      * exists f, l. auto.
    + intros H; inversion H; subst. exists f, l. auto.
    + intros H; inversion H; subst. exists f, l. auto.
  - destruct r as [[[f0 c0 l0 m0|]|e]|msg]; simpl; try discriminate;
      intros H; inversion H; subst; exists f, l; auto.
Qed.

(** The selector names an encoding only on the gzip path, and it is ["gzip"]. *)
Lemma select_enc (fs : Fs.Fs) (g : bool) (s : rstring) (x : FileOrDir) (e : string) :
  select_content_encoding fs g s = Returns (inl (x, Some e)) -> g = true /\ e = "gzip"%string.
Proof.
  unfold select_content_encoding, picky_open_with_redirect_and_gzip.
  destruct (picky_open_with_redirect fs s) as [r p1]. cbn [fst snd].
  destruct g.
  - destruct r as [[[f0 c0 l0 m0|]|e0]|msg]; try (simpl; discriminate).
    destruct (picky_open fs (p1 ++ str ".gz")) as [[[f1 c1 l1 m1|]|e1]|msg];
      cbv beta iota zeta; try discriminate.
    destruct (m0 <=? m1)%Z; intros H; inversion H; auto.
  - destruct r as [[[f0 c0 l0 m0|]|e0]|msg]; simpl; try discriminate;
      intros H; inversion H.
Qed.

Lemma filter_app_last {A : Type} (f : A -> bool) (l : list A) (x : A) :
  f x = true -> filter f (l ++ [x]) = filter f l ++ [x].
Proof. intros H. rewrite filter_app. simpl. rewrite H. reflexivity. Qed.

Lemma content_type_index (p : rstring) :
  map_content_type (p ++ str "/index.html") = "text/html"%string.
Proof.
  unfold map_content_type, PathExt.extension, PathExt.file_name.
  rewrite Confinement.segments_app_index, filter_app_last by reflexivity.
  rewrite map_app. cbn [map]. rewrite last_last. reflexivity.
Qed.

Lemma rstring_eqb_true (a b : rstring) : rstring_eqb a b = true -> a = b.
Proof. unfold rstring_eqb. destruct (list_eq_dec Nat.eq_dec a b); congruence. Qed.

End ServeFacts.


(** ** Key loading and the accept loop *)
Module KeyFacts.
Import KeyLoad.

Lemma pop_app {A : Type} (l : list A) (x : A) : pop (l ++ [x]) = Some (x, l).
Proof. unfold pop. rewrite rev_app_distr. cbn. rewrite rev_involutive. reflexivity. Qed.

Lemma pop_some {A : Type} (l r : list A) (x : A) : pop l = Some (x, r) -> l = r ++ [x].
Proof.
  unfold pop. destruct (rev l) as [|y t] eqn:E; [discriminate|].
  intros [= <- <-]. rewrite <- (rev_involutive l), E. reflexivity.
Qed.

Lemma pop_nil {A : Type} : @pop A [] = None.
Proof. reflexivity. Qed.

End KeyFacts.

Module AcceptFacts.
Import Accept.

Lemma cids_from (incoming : list (Socket + Fs.IoError)) (n : N) :
  (n < 2 ^ 64)%N ->
  cids (fst (accept_loop incoming n)) =
  map (fun i => ((n + N.of_nat i) mod 2 ^ 64)%N)
      (seq 0 (List.length (filter (fun x => match x with inl _ => true | inr _ => false end) incoming))).
Proof.
  revert n. induction incoming as [|[s|e] rest IH]; intros n Hn.
  - reflexivity.
  - cbn [accept_loop filter fetch_add].
    pose proof (IH ((n + 1) mod 2 ^ 64)%N (N.mod_lt _ _ (ltac:(discriminate) : (2 ^ 64 <> 0)%N))) as IHn.
    destruct (accept_loop rest ((n + 1) mod 2 ^ 64)%N) as [evs c]. cbn [fst] in *.
    cbn [cids flat_map app List.length seq map]. unfold cids in IHn. rewrite IHn.
    f_equal.
    + rewrite N.add_0_r. symmetry. apply N.mod_small. exact Hn.
    + rewrite <- seq_shift, map_map. apply map_ext. intros i.
      rewrite N.Div0.add_mod_idemp_l. f_equal. lia.
  - cbn [accept_loop filter].
    pose proof (IH n Hn) as IHn.
    destruct (accept_loop rest n) as [evs c]. exact IHn.
Qed.

Lemma kinds (incoming : list (Socket + Fs.IoError)) (n : N) :
  map (fun e => match e with Spawn _ _ => true | WarnAccept => false end)
      (fst (accept_loop incoming n)) =
  map (fun x => match x with inl _ => true | inr _ => false end) incoming.
Proof.
  revert n. induction incoming as [|[s|e] rest IH]; intros n; [reflexivity| |].
  - cbn [accept_loop fetch_add].
    specialize (IH ((n + 1) mod 2 ^ 64)%N).
    destruct (accept_loop rest ((n + 1) mod 2 ^ 64)%N). cbn in *. now rewrite IH.
  - cbn [accept_loop]. specialize (IH n).
    destruct (accept_loop rest n). cbn in *. now rewrite IH.
Qed.

End AcceptFacts.

(** ** The content type and the last path component *)
Module TypeFacts.

Lemma split_on_no_sep (sep : char) (l : rstring) : ~ In sep l -> split_on sep l = [l].
Proof.
  induction l as [|c l IH]; intros H; [reflexivity|]. cbn [split_on].
  destruct (Nat.eqb_spec c sep) as [->|_]; [exfalso; apply H; left; reflexivity|].
  rewrite IH by (intros Hin; apply H; right; exact Hin). reflexivity.
Qed.

Lemma segments_last (p name : rstring) :
  ~ In c_slash name ->
  exists pre, segments (p ++ c_slash :: name) = pre ++ [name].
Proof.
  intros Hn. unfold segments.
  destruct (Confinement.split_on_app c_slash p (c_slash :: name)) as (pre & lastp & E1 & E2).
  assert (Hs : split_on c_slash (c_slash :: name) = [] :: [name]).
  { cbn [split_on]. rewrite Nat.eqb_refl, split_on_no_sep by exact Hn. reflexivity. }
  rewrite (E2 _ _ Hs), app_nil_r. exists (pre ++ [lastp]). rewrite <- app_assoc. reflexivity.
Qed.

Lemma file_name_last (p name : rstring) :
  ~ In c_slash name -> name <> [] -> name <> [c_dot] ->
  PathExt.file_name (p ++ c_slash :: name) = PathExt.file_name name.
Proof.
  intros Hn Hne Hdot. unfold PathExt.file_name.
  destruct (segments_last p name Hn) as [pre ->].
  unfold segments. rewrite split_on_no_sep by exact Hn.
  assert (Hk : negb (rstring_eqb name [] || rstring_eqb name [c_dot]) = true).
  { destruct (rstring_eqb name []) eqn:E1;
      [apply ServeFacts.rstring_eqb_true in E1; contradiction|].
    destruct (rstring_eqb name [c_dot]) eqn:E2;
      [apply ServeFacts.rstring_eqb_true in E2; contradiction|]. reflexivity. }
  rewrite ServeFacts.filter_app_last by exact Hk.
  change [name] with ([] ++ [name]).
  rewrite ServeFacts.filter_app_last by exact Hk.
  rewrite !map_app. cbn [map app]. rewrite !last_last. reflexivity.
Qed.

End TypeFacts.

(** X1: [serve_files] only opens paths inside the served tree and only
    reads the metadata of handles obtained by opening such paths: two
    filesystems that agree on every path that starts with ["./"] and has no
    ["."] or [".."] segment after it, and on the metadata of the handles
    those paths open to, give the same response, or the same panic, to
    every request. *)
Theorem serve_files_confined (fs fs' : Fs.Fs) (req : Http.Request) :
  (forall p, safe_path p -> Fs.open fs p = Fs.open fs' p) ->
  (forall p h, safe_path p -> Fs.open fs p = inl h -> Fs.metadata fs h = Fs.metadata fs' h) ->
  serve_files fs req = serve_files fs' req.
Proof.
  intros Hopen Hmeta. unfold serve_files.
  destruct (Http.method req); try reflexivity;
    rewrite (Confinement.select_agree fs fs' Hopen Hmeta _ _ (Confinement.safe_sanitize _));
    reflexivity.
Qed.

Lemma serve_files_confined_witness :
  serve_files Fixtures.site_outside (Fixtures.get (str "/../etc/passwd") false) =
  Returns Http.not_found_response.
Proof.
  rewrite (serve_files_confined Fixtures.site_outside Fixtures.site
             (Fixtures.get (str "/../etc/passwd") false)).
  - vm_compute. reflexivity.
  - intros p [Hf _]. cbn [Fs.open Fixtures.site_outside].
    destruct (rstring_eqb p (str "../etc/passwd")) eqn:E; [|reflexivity].
    apply ServeFacts.rstring_eqb_true in E. subst p. vm_compute in Hf. discriminate.
  - intros p h _ _. reflexivity.
Defined.

(** X2: a HEAD request gets exactly the response of the GET request for the
    same path and [Accept-Encoding] headers, with an empty body instead of
    the file; a GET that panics makes the HEAD panic with the same
    message. *)
Theorem serve_files_head_matches_get (fs : Fs.Fs) (path : rstring) (ae : list (list nat)) :
  serve_files fs {| Http.method := Http.HEAD; Http.uri_path := path;
                    Http.accept_encoding := ae |} =
  match serve_files fs {| Http.method := Http.GET; Http.uri_path := path;
                          Http.accept_encoding := ae |} with
  | Returns r => Returns (Http.set_body r Http.Empty)
  | Panics m => Panics m
  end.
Proof.
  rewrite !Opener.serve_files_get by (cbn; auto).
  cbn [Http.method Http.uri_path]. unfold Http.accept_gzip. cbn [Http.accept_encoding].
  destruct (select_content_encoding fs _ (sanitize_path path))
    as [[[[f ct l md|] enc]|e]|msg]; try reflexivity.
  destruct (fmt_http_date md); reflexivity.
Qed.

(** X3: a 200 response is only ever built from a file that passed the
    checks of [picky_open]: some path inside the served tree opened to a
    handle whose metadata has every read bit set, is not executable by
    others alone, and is a regular file; the [Content-Length] header is
    that metadata's length, and a GET streams that same handle (a HEAD has
    an empty body). *)
Theorem serve_files_200_checked_handle (fs : Fs.Fs) (req : Http.Request) (resp : Http.Response) :
  serve_files fs req = Returns resp -> Http.status resp = 200%N ->
  exists p h meta,
    safe_path p /\ Fs.open fs p = inl h /\ Fs.metadata fs h = inl meta /\
    N.land (Fs.mode meta) 292 = 292%N /\ N.land (Fs.mode meta) 65 <> 1%N /\
    Fs.file_type meta = Fs.RegularFile /\
    In (CONTENT_LENGTH, Http.HVNum (Fs.len meta)) (Http.headers resp) /\
    Http.body resp = match Http.method req with
                     | Http.GET => Http.FileStream h
                     | _ => Http.Empty
                     end.
Proof.
  intros Hs Hst.
  assert (Hm : Http.method req = Http.GET \/ Http.method req = Http.HEAD).
  { destruct (Http.method req) eqn:Em; auto;
      rewrite Opener.serve_files_not_get in Hs by (rewrite Em; discriminate);
      injection Hs as <-; discriminate. }
  rewrite (Opener.serve_files_get fs req Hm) in Hs.
  pose proof (Confinement.safe_sanitize (Http.uri_path req)) as Hsafe.
  destruct (select_content_encoding fs (Http.accept_gzip req) (sanitize_path (Http.uri_path req)))
    as [[[[f ct l md|] enc]|e]|msg] eqn:Esel;
    try discriminate; try (injection Hs as <-; discriminate).
  destruct (fmt_http_date md); [|discriminate]. injection Hs as <-.
  destruct (ServeFacts.select_file_origin _ _ _ _ _ _ _ _ Esel)
    as (f0 & l0 & Hbase & [(-> & -> & _) | (ct' & m' & Hgz & _)]).
  - apply ServeFacts.redirect_file in Hbase.
    destruct (ServeFacts.picky_open_file _ _ _ _ _ _ Hbase)
      as (_ & Ho & meta & Hmeta & H1 & H2 & Hft & Hlen & _).
    exists (snd (picky_open_with_redirect fs (sanitize_path (Http.uri_path req)))), f0, meta.
    rewrite Hlen.
    refine (conj _ (conj Ho (conj Hmeta (conj H1 (conj H2 (conj Hft (conj _ eq_refl))))))).
    + apply Confinement.redirect_path_safe. exact Hsafe.
    + cbn. left. reflexivity.
  - destruct (ServeFacts.picky_open_file _ _ _ _ _ _ Hgz)
      as (_ & Ho & meta & Hmeta & H1 & H2 & Hft & Hlen & _).
    exists (snd (picky_open_with_redirect fs (sanitize_path (Http.uri_path req))) ++ str ".gz"),
      f, meta.
    rewrite Hlen.
    refine (conj _ (conj Ho (conj Hmeta (conj H1 (conj H2 (conj Hft (conj _ eq_refl))))))).
    + apply Confinement.safe_path_gz, Confinement.redirect_path_safe. exact Hsafe.
    + cbn. left. reflexivity.
Qed.

Lemma serve_files_200_checked_handle_witness :
  exists p h meta,
    safe_path p /\ Fs.open Fixtures.site p = inl h /\ Fs.metadata Fixtures.site h = inl meta /\
    N.land (Fs.mode meta) 292 = 292%N /\ N.land (Fs.mode meta) 65 <> 1%N /\
    Fs.file_type meta = Fs.RegularFile /\
    In (CONTENT_LENGTH, Http.HVNum (Fs.len meta))
       [(CONTENT_LENGTH, Http.HVNum 11); (CONTENT_TYPE, Http.HVStatic "text/html");
        (LAST_MODIFIED, Http.HVHttpDate 1000)] /\
    Http.FileStream 2 = Http.FileStream h.
Proof.
  apply (serve_files_200_checked_handle Fixtures.site (Fixtures.get (str "/") false)
           {| Http.status := 200;
              Http.headers := [(CONTENT_LENGTH, Http.HVNum 11);
                               (CONTENT_TYPE, Http.HVStatic "text/html");
                               (LAST_MODIFIED, Http.HVHttpDate 1000)];
              Http.body := Http.FileStream 2 |}).
  - vm_compute. reflexivity.
  - reflexivity.
Defined.

(** X4: a response carries a [Content-Encoding] header only when the
    request's [Accept-Encoding] headers list [gzip], and the header's value
    is then ["gzip"]. *)
Theorem serve_files_content_encoding (fs : Fs.Fs) (req : Http.Request) (resp : Http.Response)
        (v : Http.HeaderValue) :
  serve_files fs req = Returns resp -> In (CONTENT_ENCODING, v) (Http.headers resp) ->
  Http.accept_gzip req = true /\ v = Http.HVStatic "gzip".
Proof.
  intros Hs Hin.
  assert (Hm : Http.method req = Http.GET \/ Http.method req = Http.HEAD).
  { destruct (Http.method req) eqn:Em; auto;
      rewrite Opener.serve_files_not_get in Hs by (rewrite Em; discriminate);
      injection Hs as <-; cbn in Hin; contradiction. }
  rewrite (Opener.serve_files_get fs req Hm) in Hs.
  destruct (select_content_encoding fs (Http.accept_gzip req) (sanitize_path (Http.uri_path req)))
    as [[[[f ct l md|] enc]|e]|msg] eqn:Esel;
    try discriminate; try (injection Hs as <-; cbn in Hin; contradiction).
  destruct (fmt_http_date md); [|discriminate]. injection Hs as <-.
  destruct enc as [enc|].
  - apply ServeFacts.select_enc in Esel as [Hg ->].
    cbn in Hin. destruct Hin as [H|[H|[H|[H|[]]]]]; try discriminate H.
    injection H as <-. auto.
  - cbn in Hin. destruct Hin as [H|[H|[H|[]]]]; discriminate H.
Qed.

Lemma serve_files_content_encoding_witness :
  Http.accept_gzip (Fixtures.get (str "/") true) = true /\
  Http.HVStatic "gzip" = Http.HVStatic "gzip".
Proof.
  apply (serve_files_content_encoding Fixtures.site (Fixtures.get (str "/") true)
           {| Http.status := 200;
              Http.headers := [(CONTENT_LENGTH, Http.HVNum 7);
                               (CONTENT_TYPE, Http.HVStatic "text/html");
                               (LAST_MODIFIED, Http.HVHttpDate 1000);
                               (CONTENT_ENCODING, Http.HVStatic "gzip")];
              Http.body := Http.FileStream 3 |}).
  - vm_compute. reflexivity.
  - cbn [Http.headers In]. right. right. right. left. reflexivity.
Defined.

(** X5: when the sanitized path [p] of a GET or HEAD opens as a directory,
    a 200 response serves the directory's index: its handle is the one
    [p ++ "/index.html"] opens to, or the one its [.gz] variant opens to,
    a GET streams that handle (a HEAD has an empty body), and the response
    is labelled [text/html] either way. *)
Theorem directory_served_as_html (fs : Fs.Fs) (req : Http.Request) (resp : Http.Response) :
  (Http.method req = Http.GET \/ Http.method req = Http.HEAD) ->
  picky_open fs (sanitize_path (Http.uri_path req)) = Returns (inl Dir) ->
  serve_files fs req = Returns resp -> Http.status resp = 200%N ->
  In (CONTENT_TYPE, Http.HVStatic "text/html") (Http.headers resp) /\
  exists h,
    (Fs.open fs (sanitize_path (Http.uri_path req) ++ str "/index.html") = inl h \/
     Fs.open fs (sanitize_path (Http.uri_path req) ++ str "/index.html" ++ str ".gz") = inl h) /\
    Http.body resp = match Http.method req with
                     | Http.GET => Http.FileStream h
                     | _ => Http.Empty
                     end.
Proof.
  intros Hm Hdir Hs Hst.
  rewrite (Opener.serve_files_get fs req Hm) in Hs.
  destruct (select_content_encoding fs (Http.accept_gzip req) (sanitize_path (Http.uri_path req)))
    as [[[[f ct l md|] enc]|e]|msg] eqn:Esel;
    try discriminate; try (injection Hs as <-; discriminate).
  destruct (fmt_http_date md); [|discriminate]. injection Hs as <-.
  destruct (ServeFacts.select_file_origin _ _ _ _ _ _ _ _ Esel)
    as (f0 & l0 & Hbase & Horig).
  pose proof (Opener.picky_open_redirect_dir fs _ Hdir) as Hr.
  rewrite Hr in Hbase, Horig. cbn [fst snd] in Hbase, Horig.
  destruct (ServeFacts.picky_open_file _ _ _ _ _ _ Hbase) as (-> & Ho & _).
  split.
  - rewrite ServeFacts.content_type_index. cbn. right. left. reflexivity.
  - destruct Horig as [(-> & _ & _) | (ct' & m' & Hgz & _)].
    + exists f0. split; [left; exact Ho|reflexivity].
    + destruct (ServeFacts.picky_open_file _ _ _ _ _ _ Hgz) as (_ & Hog & _).
      exists f. split; [right; rewrite app_assoc; exact Hog|reflexivity].
Qed.

Lemma directory_served_as_html_witness :
  In (CONTENT_TYPE, Http.HVStatic "text/html")
     [(CONTENT_LENGTH, Http.HVNum 7); (CONTENT_TYPE, Http.HVStatic "text/html");
      (LAST_MODIFIED, Http.HVHttpDate 1000); (CONTENT_ENCODING, Http.HVStatic "gzip")] /\
  exists h,
    (Fs.open Fixtures.site (sanitize_path (str "/") ++ str "/index.html") = inl h \/
     Fs.open Fixtures.site (sanitize_path (str "/") ++ str "/index.html" ++ str ".gz") = inl h) /\
    Http.FileStream 3 = Http.FileStream h.
Proof.
  apply (directory_served_as_html Fixtures.site (Fixtures.get (str "/") true)
           {| Http.status := 200;
              Http.headers := [(CONTENT_LENGTH, Http.HVNum 7);
                               (CONTENT_TYPE, Http.HVStatic "text/html");
                               (LAST_MODIFIED, Http.HVHttpDate 1000);
                               (CONTENT_ENCODING, Http.HVStatic "gzip")];
              Http.body := Http.FileStream 3 |}).
  - left. reflexivity.
  - vm_compute. reflexivity.
  - vm_compute. reflexivity.
  - reflexivity.
Defined.

(** X6: runs of slashes collapse: a leading ['/'] of the request path
    makes no difference, and, before the first ['%'], a doubled ['/'] gives
    the same sanitized path as a single one. *)
Theorem sanitize_path_slash_runs (p q : rstring) :
  ~ In c_pct p ->
  sanitize_path (c_slash :: q) = sanitize_path q /\
  sanitize_path (p ++ c_slash :: c_slash :: q) = sanitize_path (p ++ c_slash :: q).
Proof.
  intros Hp. rewrite !Normalizer.sanitize_path_eq.
  rewrite !Lengths.decode_app_no_pct by exact Hp.
  change (Structural.decode (c_slash :: c_slash :: q))
    with (c_slash :: c_slash :: Structural.decode q).
  change (Structural.decode (c_slash :: q)) with (c_slash :: Structural.decode q).
  split.
  - reflexivity.
  - rewrite Lengths.san_slash_slash by (right; reflexivity). reflexivity.
Qed.

Lemma sanitize_path_slash_runs_witness :
  sanitize_path (c_slash :: str "b") = sanitize_path (str "b") /\
  sanitize_path (str "a" ++ c_slash :: c_slash :: str "b") = sanitize_path (str "a" ++ c_slash :: str "b").
Proof.
  apply sanitize_path_slash_runs. simpl; intuition discriminate.
Defined.

(** X7: decoding never lengthens the path and shrinks it at most threefold
    (one character per ["%XX"]); the sanitized path is at most two
    characters longer than the request path (the leading ["./"]). *)
Theorem sanitize_path_length (s : rstring) :
  List.length (percent_decode s) <= List.length s /\
  List.length s <= 3 * List.length (percent_decode s) /\
  List.length (sanitize_path s) <= List.length s + 2.
Proof.
  rewrite Normalizer.sanitize_path_eq, Normalizer.percent_decode_eq.
  destruct (Lengths.decode_length_bounds s) as [H1 H2].
  pose proof (Lengths.san_length Sanitizer.Slash (Structural.decode s)) as H3.
  cbn [List.length]. lia.
Qed.

(** X8: after its leading ["./"], the sanitizer drops no character of the
    decoded path other than ['/']: the decoded path and the sanitized one
    have the same number of characters that are not ['/']. *)
Theorem sanitize_path_only_drops_slashes (s : rstring) :
  List.length (filter (fun c => negb (c =? c_slash)) (skipn 2 (sanitize_path s))) =
  List.length (filter (fun c => negb (c =? c_slash)) (percent_decode s)).
Proof.
  rewrite Normalizer.sanitize_path_eq, Normalizer.percent_decode_eq. cbn [skipn].
  apply Lengths.san_nonslash.
Qed.

(** X9: [Sanitizer::size_hint] is sound at every point of the iteration
    [sanitize_path] runs: after any number [k] of calls of [next], the lower
    bound is [0] and the upper bound (the decoder's upper bound plus [2]) is
    at least the number of characters still to come. *)
Theorem sanitizer_size_hint_sound (path : rstring) (k : nat)
        (st : Sanitizer.SanitizerState * (Percent.PercentState * rstring)) :
  advance (Sanitizer.next Percent.next (3 * List.length path + 3)) k
          (Sanitizer.EmitDot, (Percent.Normal, path)) = Some st ->
  fst (Sanitizer.size_hint Percent.size_hint st) = 0 /\
  exists hi, snd (Sanitizer.size_hint Percent.size_hint st) = Some hi /\
             List.length (skipn k (sanitize_path path)) <= hi.
Proof.
  intros Hadv. split; [reflexivity|].
  exists (utf8_bytes (snd (snd st)) + 2). split.
  - destruct st as [sst [pst inner]]. reflexivity.
  - unfold sanitize_path. rewrite (Hints.skipn_collect _ _ _ _ _ Hadv).
    pose proof (Hints.sanitizer_advance_inv _ _ _ _ Hadv eq_refl) as Hinv.
    destruct st as [sst s]. apply Hints.sanitizer_remaining_bound. exact Hinv.
Qed.

Lemma sanitizer_size_hint_sound_witness :
  fst (Sanitizer.size_hint Percent.size_hint
         (Sanitizer.Normal, (Percent.Unspool2 52 103, []))) = 0 /\
  exists hi, snd (Sanitizer.size_hint Percent.size_hint
                    (Sanitizer.Normal, (Percent.Unspool2 52 103, []))) = Some hi /\
             List.length (skipn 3 (sanitize_path (str "%4g"))) <= hi.
Proof.
  apply (sanitizer_size_hint_sound (str "%4g") 3). vm_compute. reflexivity.
Defined.

(** X10: at every point of decoding a path, [PercentDecoder::size_hint]'s
    lower bound is at most the number of characters still to come, and,
    while the decoder is not in the middle of replaying an invalid escape,
    so is its upper bound at least that number. *)
Theorem percent_decoder_size_hint_bounds (path : rstring) (k : nat)
        (s : Percent.PercentState * rstring) :
  advance Percent.next k (Percent.Normal, path) = Some s ->
  fst (Percent.size_hint s) <= List.length (skipn k (percent_decode path)) /\
  (fst s = Percent.Normal ->
   exists hi, snd (Percent.size_hint s) = Some hi /\
              List.length (skipn k (percent_decode path)) <= hi).
Proof.
  intros Hadv. rewrite (Hints.decoder_remaining path k s Hadv).
  destruct s as [pst inner]. unfold Structural.yields. cbn [fst snd].
  rewrite length_app.
  destruct (Lengths.decode_length_bounds inner) as [H1 H2].
  destruct (Hints.utf8_bytes_bounds inner) as [U1 U2].
  split.
  - unfold Percent.size_hint, chars_size_hint. cbn [snd fst].
    assert (Hd : (utf8_bytes inner + 3) / 4 <= List.length inner).
    { enough ((utf8_bytes inner + 3) / 4 < List.length inner + 1) by lia.
      apply Nat.Div0.div_lt_upper_bound; lia. }
    assert (Hd3 : (utf8_bytes inner + 3) / 4 / 3 <= List.length inner / 3)
      by (apply Nat.Div0.div_le_mono; exact Hd).
    assert (H3 : List.length inner / 3 <= List.length (Structural.decode inner)).
    { apply Nat.Div0.div_le_upper_bound. lia. }
    lia.
  - intros ->. exists (utf8_bytes inner). split; [reflexivity|]. cbn. lia.
Qed.

Lemma percent_decoder_size_hint_bounds_witness :
  fst (Percent.size_hint (Percent.Normal, str "z")) <=
    List.length (skipn 1 (percent_decode (str "%41z"))) /\
  (fst (Percent.Normal, str "z") = Percent.Normal ->
   exists hi, snd (Percent.size_hint (Percent.Normal, str "z")) = Some hi /\
              List.length (skipn 1 (percent_decode (str "%41z"))) <= hi).
Proof.
  apply (percent_decoder_size_hint_bounds (str "%41z") 1). vm_compute. reflexivity.
Defined.

(** X11: [PercentDecoder::size_hint] ignores the replay state, so its upper
    bound can be smaller than what is left: for an invalid escape ["%xy"] at
    the end of the path, after the ['%'] is yielded the hint is [(0, Some 0)]
    while [x] and [y] are still to come. *)
Theorem percent_decoder_size_hint_short (q : rstring) (x y : char) :
  ~ In c_pct q -> (Percent.hexit x = None \/ Percent.hexit y = None) ->
  advance Percent.next (List.length q + 1) (Percent.Normal, q ++ [c_pct; x; y]) =
    Some (Percent.Unspool2 x y, []) /\
  Percent.size_hint (Percent.Unspool2 x y, []) = (0, Some 0) /\
  skipn (List.length q + 1) (percent_decode (q ++ [c_pct; x; y])) = [x; y].
Proof.
  intros Hq Hxy.
  assert (Hadv : advance Percent.next (List.length q + 1) (Percent.Normal, q ++ [c_pct; x; y]) =
                 Some (Percent.Unspool2 x y, [])).
  { rewrite Hints.advance_add, (Hints.decoder_advance_no_pct q _ Hq).
    cbn [advance Percent.next]. rewrite Nat.eqb_refl.
    destruct Hxy as [Hx|Hy];
      [rewrite Hx | destruct (Percent.hexit x); [rewrite Hy|]]; reflexivity. }
  split; [exact Hadv|]. split; [reflexivity|].
  rewrite (Hints.decoder_remaining _ _ _ Hadv). reflexivity.
Qed.

Lemma percent_decoder_size_hint_short_witness :
  advance Percent.next (List.length (str "a") + 1) (Percent.Normal, str "a" ++ [c_pct; 52; 103]) =
    Some (Percent.Unspool2 52 103, []) /\
  Percent.size_hint (Percent.Unspool2 52 103, []) = (0, Some 0) /\
  skipn (List.length (str "a") + 1) (percent_decode (str "a" ++ [c_pct; 52; 103])) = [52; 103].
Proof.
  apply percent_decoder_size_hint_short.
  - simpl; intuition discriminate.
  - right. reflexivity.
Defined.

(** ** Percent-encoding round trip *)
Module RoundTrip.

Lemma hexit_hex_digit (d : nat) : d < 16 -> Percent.hexit (hex_digit d) = Some d.
Proof.
  intros H. do 16 (destruct d as [|d]; [reflexivity|]). lia.
Qed.

Lemma decode_escape (x y : char) (r : rstring) :
  Structural.decode (c_pct :: x :: y :: r) =
  match Percent.hexit x, Percent.hexit y with
  | Some x', Some y' => Percent.combine x' y' :: Structural.decode r
  | _, _ => c_pct :: x :: y :: Structural.decode r
  end.
Proof. reflexivity. Qed.

Lemma decode_pct_encode (bs : list nat) :
  Forall (fun b => b < 256) bs -> Structural.decode (flat_map pct_encode bs) = bs.
Proof.
  induction 1 as [|b bs Hb Hbs IH]; [reflexivity|].
  change (flat_map pct_encode (b :: bs))
    with (c_pct :: hex_digit (b / 16) :: hex_digit (b mod 16) :: flat_map pct_encode bs).
  rewrite decode_escape.
  assert (Hq : b / 16 < 16) by (apply Nat.Div0.div_lt_upper_bound; lia).
  assert (Hr : b mod 16 < 16) by (apply Nat.mod_upper_bound; lia).
  rewrite (hexit_hex_digit _ Hq), (hexit_hex_digit _ Hr), IH.
  rewrite (Normalizer.combine_spec _ _ Hq Hr). f_equal.
  pose proof (Nat.div_mod_eq b 16). lia.
Qed.

End RoundTrip.

(** X12: decoding undoes percent-encoding byte by byte: a path made of
    ["%XY"] escapes (upper-case hex digits) of bytes [bs] decodes to [bs],
    one character per byte; bytes of a multi-byte UTF-8 sequence are not
    put back together. *)
Theorem percent_decode_pct_encode (bs : list nat) :
  Forall (fun b => b < 256) bs -> percent_decode (flat_map pct_encode bs) = bs.
Proof.
  intros H. rewrite Normalizer.percent_decode_eq. apply RoundTrip.decode_pct_encode. exact H.
Qed.

Lemma percent_decode_pct_encode_witness :
  percent_decode (flat_map pct_encode [195; 169]) = [195; 169].
Proof.
  apply percent_decode_pct_encode. repeat constructor; lia.
Defined.

(** X14: [load_key_and_cert] succeeds exactly when the key file opens and
    parses to a non-empty list of keys, and then the certificate file opens
    and parses; the key returned is the last one of the file, both files
    are then opened (key first), and an empty certificate chain is
    accepted. A key file with no keys fails with "no keys found in private
    key file" before the certificate file is opened. *)
Theorem load_key_and_cert_outcomes {PK C : Type}
        (pk : Fs.Handle -> option (list PK)) (certs : Fs.Handle -> option (list C))
        (fs : Fs.Fs) (kp cp : rstring) :
  (forall key chain opened,
     KeyLoad.load_key_and_cert pk certs fs kp cp = (inl (key, chain), opened) ->
     opened = [kp; cp] /\
     exists kf cf keys, Fs.open fs kp = inl kf /\ pk kf = Some (keys ++ [key]) /\
                        Fs.open fs cp = inl cf /\ certs cf = Some chain) /\
  (forall kf cf keys key chain,
     Fs.open fs kp = inl kf -> pk kf = Some (keys ++ [key]) ->
     Fs.open fs cp = inl cf -> certs cf = Some chain ->
     KeyLoad.load_key_and_cert pk certs fs kp cp = (inl (key, chain), [kp; cp])) /\
  (forall kf,
     Fs.open fs kp = inl kf -> pk kf = Some [] ->
     KeyLoad.load_key_and_cert pk certs fs kp cp =
     (inr (KeyLoad.other "no keys found in private key file"), [kp])).
Proof.
  split; [|split].
  - intros key chain opened. unfold KeyLoad.load_key_and_cert.
    destruct (Fs.open fs kp) as [kf|e]; [|discriminate].
    destruct (pk kf) as [keys|] eqn:Epk; [|discriminate].
    destruct (KeyLoad.pop keys) as [[k rest]|] eqn:Ep; [|discriminate].
    destruct (Fs.open fs cp) as [cf|e]; [|discriminate].
    destruct (certs cf) as [ch|] eqn:Ec; [|discriminate].
    intros H. injection H as <- <- <-. split; [reflexivity|].
    apply KeyFacts.pop_some in Ep. subst keys. exists kf, cf, rest. auto.
  - intros kf cf keys key chain H1 H2 H3 H4. unfold KeyLoad.load_key_and_cert.
    rewrite H1, H2, KeyFacts.pop_app, H3, H4. reflexivity.
  - intros kf H1 H2. unfold KeyLoad.load_key_and_cert. rewrite H1, H2. reflexivity.
Qed.

Lemma load_key_and_cert_outcomes_witness :
  KeyLoad.load_key_and_cert (fun h : nat => Some [h; h + 10]) (fun _ : nat => Some (@nil nat))
    Fixtures.site (str "./secret.txt") (str "./nomtime.txt") =
  (inl (16, []), [str "./secret.txt"; str "./nomtime.txt"]).
Proof.
  apply (proj1 (proj2 (load_key_and_cert_outcomes (fun h : nat => Some [h; h + 10])
                         (fun _ : nat => Some (@nil nat)) Fixtures.site
                         (str "./secret.txt") (str "./nomtime.txt")))
           6 7 [6] 16 []); vm_compute; reflexivity.
Defined.

(** X15: the accept loop spawns one connection task per accepted socket
    and logs a warning for each failed accept, in order; the [n]-th
    spawned connection (from 0) gets the id [n mod 2^64], failed accepts
    consuming no id. *)
Theorem accept_loop_connection_ids (incoming : list (Accept.Socket + Fs.IoError)) :
  map (fun e => match e with Accept.Spawn _ _ => true | Accept.WarnAccept => false end)
      (fst (Accept.accept_loop incoming 0)) =
  map (fun x => match x with inl _ => true | inr _ => false end) incoming /\
  Accept.cids (fst (Accept.accept_loop incoming 0)) =
  map (fun i => (N.of_nat i mod 2 ^ 64)%N)
      (seq 0 (List.length (filter (fun x => match x with inl _ => true | inr _ => false end)
                                  incoming))).
Proof.
  split; [apply AcceptFacts.kinds|].
  rewrite AcceptFacts.cids_from by reflexivity. reflexivity.
Qed.

(** X16: a GET or HEAD whose path (after the directory redirect) opens as a
    regular file with a modification time before the epoch, or at or after
    253402300800 s (10000-01-01T00:00:00Z), gets no response: [serve_files]
    panics in [fmt_http_date], whether or not a [.gz] variant is served. *)
Theorem serve_files_date_panics (fs : Fs.Fs) (req : Http.Request)
        (f : Fs.Handle) (ct : string) (l : N) (m : Z) :
  (Http.method req = Http.GET \/ Http.method req = Http.HEAD) ->
  fst (picky_open_with_redirect fs (sanitize_path (Http.uri_path req))) =
    Returns (inl (File f ct l m)) ->
  (m < 0 \/ 253402300800 * 1000000000 <= m)%Z ->
  exists msg, serve_files fs req = Panics msg.
Proof.
  intros Hm Hbase Hrange.
  assert (Hd : exists msg, fmt_http_date m = Panics msg).
  { unfold fmt_http_date. destruct Hrange as [Hlt|Hge].
    - apply Z.ltb_lt in Hlt. rewrite Hlt. eauto.
    - assert (Hn : (m <? 0)%Z = false) by (apply Z.ltb_ge; lia). rewrite Hn.
      assert (Hq : (253402300800 <= m / 1000000000)%Z)
        by (apply Z.div_le_lower_bound; lia).
      apply Z.leb_le in Hq. rewrite Hq. eauto. }
  destruct Hd as [msg Hd].
  rewrite (Opener.serve_files_get fs req Hm).
  unfold select_content_encoding, picky_open_with_redirect_and_gzip.
  destruct (picky_open_with_redirect fs (sanitize_path (Http.uri_path req))) as [r p1].
  cbn [fst] in Hbase. subst r.
  destruct (Http.accept_gzip req); cbn [fst snd]; [|rewrite Hd; eauto].
  destruct (picky_open fs (p1 ++ str ".gz")) as [[[f1 c1 l1 m1|]|e]|msg1];
    cbn [fst snd]; [destruct (m <=? m1)%Z| | |]; cbn [fst snd]; try rewrite Hd; eauto.
Qed.

Lemma serve_files_date_panics_witness :
  exists msg,
    serve_files (Fixtures.table_fs [(str "./old", 1)]
                   [(1, Fixtures.meta 420 Fs.RegularFile 3 (Some (-1)%Z))])
      (Fixtures.get (str "/old") false) = Panics msg.
Proof.
  apply (serve_files_date_panics _ _ 1 "text/plain"%string 3 (-1)%Z).
  - left. reflexivity.
  - vm_compute. reflexivity.
  - left. lia.
Defined.

(** X17: the content type depends only on the last component of the path:
    appending a component that is non-empty, not ["."] and has no ['/']
    to any path gives the content type of that component alone. *)
Theorem map_content_type_last_component (p name : rstring) :
  ~ In c_slash name -> name <> [] -> name <> [c_dot] ->
  map_content_type (p ++ c_slash :: name) = map_content_type name.
Proof.
  intros Hn Hne Hdot. unfold map_content_type, PathExt.extension.
  rewrite TypeFacts.file_name_last by assumption. reflexivity.
Qed.

Lemma map_content_type_last_component_witness :
  map_content_type (str "./sub" ++ c_slash :: str "style.css") = map_content_type (str "style.css").
Proof.
  apply map_content_type_last_component.
  - simpl; intuition discriminate.
  - discriminate.
  - discriminate.
Defined.
